(** * EditableText: drag, inline edit and entrance animations

    A shallow embedding of the [EditableText] React component
    (apps/web/src/components/editor/editable-text.tsx): its [useState]
    cells, its event handlers, the document-level listeners a drag
    installs, the external timeline store it writes to and the GSAP
    timelines it builds.

    Numbers that flow through the pointer arithmetic are JavaScript
    numbers, i.e. IEEE-754 binary64 values; they are modelled by the
    kernel's primitive floats, so that division by a zero extent,
    infinities and NaN behave as they do at run time.  Timeline
    positions and durations are decimal literals of seconds and are
    modelled as exact rationals. *)

From Stdlib Require Import Bool List String Ascii ZArith QArith Qminmax Lia Lqa.
From Stdlib Require Import Floats.
Import ListNotations.

Close Scope Q_scope.
Local Open Scope bool_scope.
Local Open Scope list_scope.

(** ** JavaScript numbers *)

Module JS.

Local Open Scope float_scope.

(** [Math.min(a, b)]: NaN if either argument is NaN; [-0] counts as
    smaller than [+0]. *)
Definition Math_min (a b : float) : float :=
  if is_nan a || is_nan b then nan
  else if a <? b then a
  else if b <? a then b
  else if get_sign a then a else b.

(** [Math.max(a, b)]: NaN if either argument is NaN; [+0] counts as
    larger than [-0]. *)
Definition Math_max (a b : float) : float :=
  if is_nan a || is_nan b then nan
  else if a <? b then b
  else if b <? a then a
  else if get_sign a then b else a.

(** [lo <= v <= hi] with the comparisons of the language: false as
    soon as one of the three is NaN. *)
Definition within (lo hi v : float) : bool :=
  (lo <=? v) && (v <=? hi).

End JS.

(** ** Data *)

(** [{ x, y }] *)
Module Point.
Record t := mk { x : float; y : float }.
End Point.

(** The result of [getBoundingClientRect()]. *)
Module DOMRect.
Record t := mk { left : float; top : float; width : float; height : float }.
End DOMRect.

(** [canvasSize: { width: number; height: number }] *)
Module Size.
Record t := mk { width : float; height : float }.
End Size.

(** The [useState] cells of one component instance. *)
Record State := mkState {
  isEditing : bool;
  isDragging : bool;
  dragOffset : Point.t;
  editContent : string;
  isAnimating : bool
}.

(** What a [handleMouseMove] closure captured when [handleMouseDown]
    created it: the grab [offset] and the [canvasSize] prop of that
    render. *)
Record MoveClosure := mkMove {
  offset : Point.t;
  closureCanvas : Size.t
}.

(** ** GSAP timelines *)

Inductive Value :=
| Num (q : Q)
| Str (s : string).

(** A vars object, [{ opacity: 1, duration: 0.05, ... }] without the
    special keys, which [Tween] keeps apart. *)
Definition Vars := list (string * Value).

(** A [<span>] the typewriter preset creates. *)
Record Span := mkSpan {
  textContent : ascii;
  opacity : Q
}.

Inductive Target :=
| element_node                   (* gsapRef.current *)
| span_node (i : nat).           (* the span created for index i *)

Record Tween := mkTween {
  target : Target;
  fromVars : Vars;               (* empty for [tl.to] *)
  toVars : Vars;
  duration : Q;
  ease : option string;
  yoyo : bool;
  repeat : nat;
  position : Q                   (* start time within the timeline *)
}.

Record Timeline := mkTimeline {
  spans : list Span;             (* children appended to gsapRef.current *)
  tweens : list Tween
}.

(** ** The world around one component instance *)

Record World := mkWorld {
  (* the external store: element.content and the log of
     updateTextElement calls, oldest first *)
  content : string;
  writes : list string;
  (* props *)
  canvasSize : Size.t;
  externalPreviewRef : option (option DOMRect.t);
  (* elementRef.current?.getBoundingClientRect() *)
  elementRect : option DOMRect.t;
  (* calls of onPositionUpdate, oldest first *)
  positionUpdates : list Point.t;
  (* the instance's state; None once the component is unmounted *)
  hooks : option State;
  (* document.addEventListener('mousemove' | 'mouseup', ...) *)
  nextClosure : nat;
  mousemoveListeners : list (nat * MoveClosure);
  mouseupListeners : list nat;
  (* timelines created and not yet completed, oldest first *)
  timelines : list Timeline
}.

(** ** State setters

    A [useState] setter on an unmounted instance does nothing. *)

Definition with_hooks (f : State -> State) (w : World) : World :=
  mkWorld (content w) (writes w) (canvasSize w) (externalPreviewRef w)
          (elementRect w) (positionUpdates w) (option_map f (hooks w))
          (nextClosure w) (mousemoveListeners w) (mouseupListeners w)
          (timelines w).

Definition setIsEditing (b : bool) : World -> World :=
  with_hooks (fun s => mkState b (isDragging s) (dragOffset s) (editContent s) (isAnimating s)).

Definition setIsDragging (b : bool) : World -> World :=
  with_hooks (fun s => mkState (isEditing s) b (dragOffset s) (editContent s) (isAnimating s)).

Definition setDragOffset (p : Point.t) : World -> World :=
  with_hooks (fun s => mkState (isEditing s) (isDragging s) p (editContent s) (isAnimating s)).

Definition setEditContent (c : string) : World -> World :=
  with_hooks (fun s => mkState (isEditing s) (isDragging s) (dragOffset s) c (isAnimating s)).

Definition setIsAnimating (b : bool) : World -> World :=
  with_hooks (fun s => mkState (isEditing s) (isDragging s) (dragOffset s) (editContent s) b).

(** ** Collaborators outside the component *)

(** Modelled from the spec: the store's [updateTextElement] (the
    [useTimelineStore] module is not among the sources).  The spec's
    [updateElement(trackId, elementId, partialAttributes)] "applies a
    partial attribute update to the persistent model"; here the partial
    update is [{ content }], the element read back is [element.content],
    and every call is logged. *)
Definition updateTextElement (c : string) (w : World) : World :=
  mkWorld c (writes w ++ [c]) (canvasSize w) (externalPreviewRef w)
          (elementRect w) (positionUpdates w) (hooks w)
          (nextClosure w) (mousemoveListeners w) (mouseupListeners w)
          (timelines w).

(** The [onPositionUpdate] prop: the host's callback, logged. *)
Definition onPositionUpdate (p : Point.t) (w : World) : World :=
  mkWorld (content w) (writes w) (canvasSize w) (externalPreviewRef w)
          (elementRect w) (positionUpdates w ++ [p]) (hooks w)
          (nextClosure w) (mousemoveListeners w) (mouseupListeners w)
          (timelines w).

(** [document.addEventListener('mousemove', handleMouseMove)] followed by
    [document.addEventListener('mouseup', handleMouseUp)] for the pair
    of closures one [handleMouseDown] call creates; the pair is named by
    a fresh number. *)
Definition addEventListeners (c : MoveClosure) (w : World) : World :=
  mkWorld (content w) (writes w) (canvasSize w) (externalPreviewRef w)
          (elementRect w) (positionUpdates w) (hooks w)
          (S (nextClosure w))
          (mousemoveListeners w ++ [(nextClosure w, c)])
          (mouseupListeners w ++ [nextClosure w])
          (timelines w).

(** [document.removeEventListener('mousemove', handleMouseMove)] and
    [document.removeEventListener('mouseup', handleMouseUp)] for the
    pair named [id]. *)
Definition removeEventListeners (id : nat) (w : World) : World :=
  mkWorld (content w) (writes w) (canvasSize w) (externalPreviewRef w)
          (elementRect w) (positionUpdates w) (hooks w)
          (nextClosure w)
          (filter (fun l => negb (Nat.eqb (fst l) id)) (mousemoveListeners w))
          (filter (fun l => negb (Nat.eqb l id)) (mouseupListeners w))
          (timelines w).

Definition set_timelines (tls : list Timeline) (w : World) : World :=
  mkWorld (content w) (writes w) (canvasSize w) (externalPreviewRef w)
          (elementRect w) (positionUpdates w) (hooks w)
          (nextClosure w) (mousemoveListeners w) (mouseupListeners w)
          tls.

(** React drops the instance; the component registers no effect cleanup
    (its one [useEffect] returns nothing), so nothing else changes. *)
Definition unmount (w : World) : World :=
  mkWorld (content w) (writes w) (canvasSize w) (externalPreviewRef w)
          (elementRect w) (positionUpdates w) None
          (nextClosure w) (mousemoveListeners w) (mouseupListeners w)
          (timelines w).

(** ** Drag *)

Section Drag.

Local Open Scope float_scope.

(** [const previewRef = useRef<HTMLDivElement>(null)] is attached to no
    element of the rendered tree, so its [current] stays null. *)
Definition previewRef : option DOMRect.t := None.

(** [(externalPreviewRef || previewRef).current?.getBoundingClientRect()] *)
Definition currentPreviewRef (w : World) : option DOMRect.t :=
  match externalPreviewRef w with
  | Some r => r
  | None => previewRef
  end.

Definition newX (c : MoveClosure) (rect : DOMRect.t) (clientX : float) : float :=
  ((clientX - Point.x (offset c) - DOMRect.left rect) / DOMRect.width rect - 0.5)
  * Size.width (closureCanvas c).

Definition newY (c : MoveClosure) (rect : DOMRect.t) (clientY : float) : float :=
  ((clientY - Point.y (offset c) - DOMRect.top rect) / DOMRect.height rect - 0.5)
  * Size.height (closureCanvas c).

Definition constrainedX (c : MoveClosure) (rect : DOMRect.t) (clientX : float) : float :=
  JS.Math_max ((- Size.width (closureCanvas c)) / 2)
              (JS.Math_min (Size.width (closureCanvas c) / 2) (newX c rect clientX)).

Definition constrainedY (c : MoveClosure) (rect : DOMRect.t) (clientY : float) : float :=
  JS.Math_max ((- Size.height (closureCanvas c)) / 2)
              (JS.Math_min (Size.height (closureCanvas c) / 2) (newY c rect clientY)).

Definition handleMouseMove (c : MoveClosure) (clientX clientY : float)
           (w : World) : World :=
  match currentPreviewRef w with
  | None => w
  | Some rect =>
      onPositionUpdate
        (Point.mk (constrainedX c rect clientX) (constrainedY c rect clientY)) w
  end.

Definition handleMouseUp (id : nat) (w : World) : World :=
  removeEventListeners id (setIsDragging false w).

(** [s] is the state of the render whose closure runs. *)
Definition handleMouseDown (s : State) (clientX clientY : float)
           (w : World) : World :=
  if isEditing s then w
  else
    match elementRect w with
    | None => w
    | Some elementRect =>
        let offset :=
          Point.mk
            (clientX - (DOMRect.left elementRect + DOMRect.width elementRect / 2))
            (clientY - (DOMRect.top elementRect + DOMRect.height elementRect / 2)) in
        addEventListeners (mkMove offset (canvasSize w))
          (setIsDragging true (setDragOffset offset w))
    end.

End Drag.

(** ** Inline edit *)

Definition handleDoubleClick (w : World) : World :=
  setEditContent (content w) (setIsEditing true w).

Definition handleTextChange (value : string) (w : World) : World :=
  setEditContent value w.

Definition handleTextSave (s : State) (w : World) : World :=
  setIsEditing false (updateTextElement (editContent s) w).

(** The second component tells whether [e.preventDefault()] was called. *)
Definition handleKeyDown (s : State) (key : string) (shiftKey : bool)
           (w : World) : World * bool :=
  let '(w1, prevented) :=
    if String.eqb key "Enter" && negb shiftKey
    then (handleTextSave s w, true)
    else (w, false) in
  let w2 :=
    if String.eqb key "Escape"
    then setIsEditing false (setEditContent (content w) w1)
    else w1 in
  (w2, prevented).

(** ** Animation *)

Section Animation.

Local Open Scope Q_scope.

(** GSAP: a tween lasts [duration] once per play, [repeat] more plays
    follow (no repeat delay is set anywhere). *)
Definition totalTime (t : Tween) : Q :=
  duration t * inject_Z (Z.of_nat (S (repeat t))).

Definition endTime (t : Tween) : Q := position t + totalTime t.

(** GSAP: a timeline lasts until its last child ends. *)
Fixpoint totalDuration (ts : list Tween) : Q :=
  match ts with
  | [] => 0
  | t :: rest => Qmax (endTime t) (totalDuration rest)
  end.

(** [gsap.timeline({ onComplete })] *)
Definition gsap_timeline : Timeline := mkTimeline [] [].

(** [tl.fromTo(target, from, { ...to, duration, ease })]: placed at
    the end of what the timeline holds. *)
Definition fromTo (tg : Target) (from to : Vars) (d : Q) (e : option string)
           (tl : Timeline) : Timeline :=
  mkTimeline (spans tl)
    (tweens tl ++ [mkTween tg from to d e false 0 (totalDuration (tweens tl))]).

(** [tl.to(target, { ...to, duration, ease, yoyo, repeat })]: placed
    at the end of what the timeline holds. *)
Definition to_ (tg : Target) (to : Vars) (d : Q) (e : option string)
           (yy : bool) (rp : nat) (tl : Timeline) : Timeline :=
  mkTimeline (spans tl)
    (tweens tl ++ [mkTween tg [] to d e yy rp (totalDuration (tweens tl))]).

(** [tl.to(target, { ...to, duration, ease }, position)] *)
Definition to_at (tg : Target) (to : Vars) (d : Q) (e : option string)
           (pos : Q) (tl : Timeline) : Timeline :=
  mkTimeline (spans tl) (tweens tl ++ [mkTween tg [] to d e false 0 pos]).

(** [gsapRef.current.appendChild(span)] *)
Definition appendChild (sp : Span) (tl : Timeline) : Timeline :=
  mkTimeline (spans tl ++ [sp]) (tweens tl).

(** [chars.forEach((char, i) => { ... })], from index [i] on.  The
    position [i * 0.05] is kept as the exact product of the index and
    the literal: positions and durations are the decimal quantities the
    source writes, not the binary64 values GSAP computes with. *)
Fixpoint forEach_char (chars : list ascii) (i : nat) (tl : Timeline) : Timeline :=
  match chars with
  | [] => tl
  | char :: rest =>
      forEach_char rest (S i)
        (to_at (span_node i) [("opacity"%string, Num 1)] (5 # 100) (Some "none"%string)
               (inject_Z (Z.of_nat i) * (5 # 100))
               (appendChild (mkSpan char 0) tl))
  end.

(** The [switch (animation)] of [playAnimation], applied to the fresh
    timeline; [text] is [element.content]. *)
Definition build (animation text : string) : Timeline :=
  if String.eqb animation "fadeIn" then
    fromTo element_node
           [("opacity"%string, Num 0); ("scale"%string, Num (8 # 10))]
           [("opacity"%string, Num 1); ("scale"%string, Num 1)]
           (5 # 10) (Some "back.out(1.7)"%string) gsap_timeline
  else if String.eqb animation "slideIn" then
    fromTo element_node
           [("x"%string, Num (-100)); ("opacity"%string, Num 0)]
           [("x"%string, Num 0); ("opacity"%string, Num 1)]
           (5 # 10) (Some "power2.out"%string) gsap_timeline
  else if String.eqb animation "bounce" then
    fromTo element_node
           [("y"%string, Num (-50)); ("opacity"%string, Num 0)]
           [("y"%string, Num 0); ("opacity"%string, Num 1)]
           (6 # 10) (Some "bounce.out"%string) gsap_timeline
  else if String.eqb animation "typewriter" then
    forEach_char (list_ascii_of_string text) 0 gsap_timeline
  else if String.eqb animation "glow" then
    to_ element_node
        [("textShadow"%string, Str "0 0 20px #fff, 0 0 30px #fff, 0 0 40px #fff")]
        (3 # 10) None true 1 gsap_timeline
  else gsap_timeline.

End Animation.

(** [gsapRef] is attached to the display node, which is rendered in the
    non-editing branch only: [gsapRef.current] is an element exactly
    then. *)
Definition gsapRef (s : State) : bool := negb (isEditing s).

(** [s] is the state of the render that created the closure: the guard
    reads its [isAnimating], whatever [setIsAnimating] was called with
    since. *)
Definition playAnimation (s : State) (animation : string) (w : World) : World :=
  if negb (gsapRef s) || isAnimating s then w
  else set_timelines (timelines w ++ [build animation (content w)])
                     (setIsAnimating true w).

(** The timeline's [onComplete: () => setIsAnimating(false)], run by
    GSAP when a pending timeline has played to its end.  Timelines that
    pend together are taken to end in the order they were started, as
    timelines of equal length started in one tick do. *)
Definition onComplete (w : World) : World :=
  match timelines w with
  | [] => w
  | _ :: rest => setIsAnimating false (set_timelines rest w)
  end.

(** ** Events *)

Inductive Event :=
| DoubleClick                                  (* on the element *)
| MouseDown (clientX clientY : float)          (* on the element *)
| MouseMove (clientX clientY : float)          (* on the document *)
| MouseUp                                      (* on the document *)
| Change (value : string)                      (* on the textarea *)
| KeyDown (key : string) (shiftKey : bool) (caret : nat)  (* on the textarea *)
| Blur                                         (* on the textarea *)
| Trigger (animation : string)                 (* one call of playAnimation *)
| Triggers (animations : list string)          (* calls of one render's playAnimation *)
| Complete                                     (* GSAP ends a timeline *)
| Unmount.                                     (* React removes the component *)

(** One turn of the event loop.  A DOM event reaches the handlers bound
    where it occurs, and React re-renders before the next one, so these
    handlers close over the state [s] of the latest render.  The
    element's handlers exist while the component is mounted; the
    textarea (with [onChange], [onKeyDown], [onBlur]) is rendered only
    under [isEditing ? ... : ...], and a double-click or pointer-down on
    it bubbles to the element; the document's listeners are whatever was
    added and not removed.  Events are those the user, GSAP or React
    cause: taking the textarea out of the tree is not itself counted as
    a [Blur] that reaches [onBlur].

    [KeyDown] runs [handleKeyDown] and nothing else.  What the textarea
    does with a key the handler did not prevent is the browser's
    business: the component learns of it through [onChange], that is,
    through a [Change] event carrying the value the textarea then has.
    [caret] is the textarea's [selectionStart]; no handler reads it, and
    the [focus()] and [select()] of the effect on [isEditing] act on the
    textarea's focus and selection only, which no handler reads either.

    [playAnimation] is a [useCallback] closure over [isAnimating]: a
    call reads the flag of the render that created the closure, and
    [setIsAnimating(true)] shows in the next render only.  [Trigger] is
    a single call of the latest render's closure, after which React
    re-renders; [Triggers] is any number of calls of that one closure,
    in order, made before React re-renders (two calls in one handler of
    the host, say). *)
Definition dispatch (e : Event) (w : World) : World :=
  match e with
  | MouseMove clientX clientY =>
      fold_left (fun w' l => handleMouseMove (snd l) clientX clientY w')
                (mousemoveListeners w) w
  | MouseUp =>
      fold_left (fun w' id => handleMouseUp id w') (mouseupListeners w) w
  | Complete => onComplete w
  | Unmount => unmount w
  | DoubleClick =>
      match hooks w with
      | Some _ => handleDoubleClick w
      | None => w
      end
  | MouseDown clientX clientY =>
      match hooks w with
      | Some s => handleMouseDown s clientX clientY w
      | None => w
      end
  | Change value =>
      match hooks w with
      | Some s => if isEditing s then handleTextChange value w else w
      | None => w
      end
  | KeyDown key shiftKey caret =>
      match hooks w with
      | Some s =>
          if isEditing s then fst (handleKeyDown s key shiftKey w) else w
      | None => w
      end
  | Blur =>
      match hooks w with
      | Some s => if isEditing s then handleTextSave s w else w
      | None => w
      end
  | Trigger animation =>
      match hooks w with
      | Some s => playAnimation s animation w
      | None => w
      end
  | Triggers animations =>
      match hooks w with
      | Some s =>
          fold_left (fun w' animation => playAnimation s animation w') animations w
      | None => w
      end
  end.

Definition run (es : list Event) (w : World) : World :=
  fold_left (fun w' e => dispatch e w') es w.

(** The component right after its first render. *)
Definition mount (content0 : string) (canvas : Size.t)
           (preview : option (option DOMRect.t)) (rect : option DOMRect.t) : World :=
  mkWorld content0 [] canvas preview rect []
          (Some (mkState false false (Point.mk 0 0) content0 false))
          0 [] [] [].


(** ** Vocabulary of the specification *)

(** A run of move signals on the document, one per pointer position. *)
Definition moves (ms : list (float * float)) : list Event :=
  map (fun m => MouseMove (fst m) (snd m)) ms.

(** A commit signal: "Enter without a simultaneous newline modifier, or
    loss of focus". *)
Definition is_commit (e : Event) : bool :=
  match e with
  | Blur => true
  | KeyDown key shiftKey _ => String.eqb key "Enter" && negb shiftKey
  | _ => false
  end.

(** The busy-guard as an observer sees it. *)
Definition running (w : World) : bool :=
  match hooks w with
  | Some s => isAnimating s
  | None => false
  end.

(** The edit session's mode is [editing]. *)
Definition editing (w : World) : bool :=
  match hooks w with
  | Some s => isEditing s
  | None => false
  end.

(** The draft, when there is a session. *)
Definition draft (w : World) : option string :=
  option_map editContent (hooks w).

(** Every document listener a drag added comes as a pair: the ids under
    'mousemove' are those under 'mouseup', in the same order. *)
Definition paired (w : World) : Prop :=
  map fst (mousemoveListeners w) = mouseupListeners w.

(** What binary rounding yields, apart from the sign. *)
Inductive magnitude :=
| MZero
| MFinite (m : positive) (e : Z)
| MInfinity.

Definition signed (s : bool) (k : magnitude) : spec_float :=
  match k with
  | MZero => S754_zero s
  | MFinite m e => S754_finite s m e
  | MInfinity => S754_infinity s
  end.

(** Reveal unit [i] as the specification words it: the i-th span goes
    to opacity 1 in 0.05 s, linearly, from offset [i * 0.05] s. *)
Definition reveal (i : nat) : Tween :=
  mkTween (span_node i) [] [("opacity"%string, Num 1%Q)] (5 # 100)
          (Some "none"%string) false 0
          (inject_Z (Z.of_nat i) * (5 # 100))%Q.



(** ** The documented scenes *)

Module Scene.

Local Open Scope float_scope.

(** Canvas 1920x1080 shown at half scale, the element at the centre. *)
Definition canvas : Size.t := Size.mk 1920 1080.
Definition halfScale : DOMRect.t := DOMRect.mk 0 0 960 540.
Definition centred : DOMRect.t := DOMRect.mk 430 250 100 40.

Definition preview : World :=
  mount "A" canvas (Some (Some halfScale)) (Some centred).

(** The same, with a preview surface laid out with no extent. *)
Definition collapsed : World :=
  mount "A" canvas (Some (Some (DOMRect.mk 0 0 0 0))) (Some centred).

(** The same, before the element's own node is laid out. *)
Definition unmeasured : World :=
  mount "A" canvas (Some (Some halfScale)) None.

(** An edit session on "A" whose draft reads "AB". *)
Definition drafting : World := run [DoubleClick; Change "AB"] preview.

End Scene.


(** * The AI panels

    [AITextEditor] (ai-text-editor.tsx) and [AITextProperties]
    (properties-panel/ai-text-properties.tsx) share, word for word,
    [applyStyle], [generateStyles], [handleApiKeySave] and the effect
    that loads the key; one model serves both. *)

(** ** JavaScript values, as [JSON.parse] and object literals give them *)

#[warnings="-register-all"]
Inductive JSValue :=
| undefined
| null
| JSBoolean (b : bool)
| JSNumber (n : float)
| JSString (s : string)
| JSObject (fields : list (string * JSValue))
| JSArray (items : list JSValue).

(** An object: its own properties in insertion order, one per key. *)
Definition Obj := list (string * JSValue).

(** [o.k]: undefined when the object has no such property. *)
Fixpoint getProp (o : Obj) (k : string) : JSValue :=
  match o with
  | [] => undefined
  | (k', v) :: rest => if String.eqb k' k then v else getProp rest k
  end.

(** [o.k = v]: an existing property keeps its place, a new one comes
    last. *)
Fixpoint setProp (o : Obj) (k : string) (v : JSValue) : Obj :=
  match o with
  | [] => [(k, v)]
  | (k', v') :: rest =>
      if String.eqb k' k then (k, v) :: rest else (k', v') :: setProp rest k v
  end.

(** ToBoolean, the test of [if (x)]. *)
Definition ToBoolean (v : JSValue) : bool :=
  match v with
  | undefined => false
  | null => false
  | JSBoolean b => b
  | JSNumber n => negb (PrimFloat.eqb n 0 || is_nan n)
  | JSString s => negb (String.eqb s "")
  | JSObject _ => true
  | JSArray _ => true
  end.

(** [x !== undefined] *)
Definition isDefined (v : JSValue) : bool :=
  match v with
  | undefined => false
  | _ => true
  end.

(** ** applyStyle *)

(** [if (style.k) updates.k = style.k;] *)
Definition copyIfTruthy (k : string) (style updates : Obj) : Obj :=
  if ToBoolean (getProp style k)
  then setProp updates k (getProp style k)
  else updates.

(** The [updates] object [applyStyle] hands to [updateTextElement]. *)
Definition applyStyle_updates (style : Obj) : Obj :=
  let updates := [] in
  let updates := copyIfTruthy "fontSize" style updates in
  let updates := copyIfTruthy "fontFamily" style updates in
  let updates := copyIfTruthy "color" style updates in
  let updates := copyIfTruthy "backgroundColor" style updates in
  let updates := copyIfTruthy "textAlign" style updates in
  let updates := copyIfTruthy "fontWeight" style updates in
  let updates := copyIfTruthy "fontStyle" style updates in
  let updates := copyIfTruthy "textDecoration" style updates in
  if isDefined (getProp style "opacity")
  then setProp updates "opacity" (getProp style "opacity")
  else updates.

(** The attributes [applyStyle] tests with [if (style.k)]. *)
Definition truthyKeys : list string :=
  ["fontSize"; "fontFamily"; "color"; "backgroundColor"; "textAlign";
   "fontWeight"; "fontStyle"; "textDecoration"]%string.

(** [const quickStyles = [...]], the [style] of each preset. *)
Definition quickStyles : list (string * Obj) :=
  [("Bold Title",
    [("fontSize", JSNumber 64); ("fontWeight", JSString "bold");
     ("color", JSString "#ffffff");
     ("textShadow", JSString "2px 2px 4px rgba(0,0,0,0.8)")]);
   ("Subtitle",
    [("fontSize", JSNumber 32); ("fontWeight", JSString "normal");
     ("color", JSString "#cccccc"); ("fontStyle", JSString "italic")]);
   ("Neon Glow",
    [("fontSize", JSNumber 48); ("fontWeight", JSString "bold");
     ("color", JSString "#00ff00");
     ("textShadow", JSString "0 0 20px #00ff00, 0 0 30px #00ff00")])]%string.

(** ** The reply of the model *)

(** [text.match(/\[[\s\S]*\]/)]: the pattern is an opening bracket, any
    characters at all (greedy), a closing bracket.  The leftmost match
    starts at the first "[" of the text (a later "[" has a "]" after it
    only if the first one has), and the greedy star runs to the last
    "]".  [fromFirstOpen] is the text from its first "[" on,
    [throughLastClose] the text up to and including its last "]". *)
Fixpoint fromFirstOpen (text : string) : option string :=
  match text with
  | EmptyString => None
  | String c rest =>
      if Ascii.eqb c "["%char then Some text else fromFirstOpen rest
  end.

Fixpoint throughLastClose (text : string) : option string :=
  match text with
  | EmptyString => None
  | String c rest =>
      match throughLastClose rest with
      | Some r => Some (String c r)
      | None => if Ascii.eqb c "]"%char then Some (String c EmptyString) else None
      end
  end.

(** [jsonMatch[0]], or [None] for a null match. *)
Definition jsonMatch (text : string) : option string :=
  match fromFirstOpen text with
  | Some (String c rest) => option_map (String c) (throughLastClose rest)
  | _ => None
  end.

(** [c] occurs in [s]. *)
Fixpoint occurs (c : ascii) (s : string) : bool :=
  match s with
  | EmptyString => false
  | String c' rest => Ascii.eqb c' c || occurs c rest
  end.

(** ** State of a panel *)

Inductive Toast :=
| success_ApiKeySaved            (* "API key saved successfully" *)
| error_NoApiKey                 (* "Please enter your Google AI API key" *)
| error_NoPrompt                 (* "Please enter a style description" *)
| error_GenerateFailed           (* "Failed to generate styles. ..." *)
| success_Applied (name : JSValue)        (* `Applied ${style.name} style` *)
| success_Playing (animation : string).   (* `Playing ${animation} animation` *)

(** [window.localStorage]: items in insertion order, one per key. *)
Definition Storage := list (string * string).

Fixpoint getItem (st : Storage) (k : string) : option string :=
  match st with
  | [] => None
  | (k', v) :: rest => if String.eqb k' k then Some v else getItem rest k
  end.

Fixpoint setItem (st : Storage) (k v : string) : Storage :=
  match st with
  | [] => [(k, v)]
  | (k', v') :: rest =>
      if String.eqb k' k then (k, v) :: rest else (k', v') :: setItem rest k v
  end.

Record Panel := mkPanel {
  (* useState *)
  prompt : string;
  panelLoading : bool;                 (* isLoading *)
  generatedStyles : JSValue;           (* useState<any[]>([]) *)
  aiApiKey : string;
  (* the world around it *)
  localStorage : Storage;
  toasts : list Toast;                 (* oldest first *)
  requests : list (string * string);   (* generateContent calls: key, prompt *)
  inFlight : nat;                      (* calls awaiting their reply *)
  styleUpdates : list Obj;             (* updateTextElement(track.id, element.id, updates) *)
  triggered : list string              (* onAnimationTrigger(animation) *)
}.

Definition with_toast (t : Toast) (p : Panel) : Panel :=
  mkPanel (prompt p) (panelLoading p) (generatedStyles p) (aiApiKey p)
          (localStorage p) (toasts p ++ [t]) (requests p) (inFlight p)
          (styleUpdates p) (triggered p).

Definition setPrompt (v : string) (p : Panel) : Panel :=
  mkPanel v (panelLoading p) (generatedStyles p) (aiApiKey p)
          (localStorage p) (toasts p) (requests p) (inFlight p)
          (styleUpdates p) (triggered p).

Definition setPanelLoading (b : bool) (p : Panel) : Panel :=
  mkPanel (prompt p) b (generatedStyles p) (aiApiKey p)
          (localStorage p) (toasts p) (requests p) (inFlight p)
          (styleUpdates p) (triggered p).

Definition setGeneratedStyles (v : JSValue) (p : Panel) : Panel :=
  mkPanel (prompt p) (panelLoading p) v (aiApiKey p)
          (localStorage p) (toasts p) (requests p) (inFlight p)
          (styleUpdates p) (triggered p).

Definition setAiApiKey (v : string) (p : Panel) : Panel :=
  mkPanel (prompt p) (panelLoading p) (generatedStyles p) v
          (localStorage p) (toasts p) (requests p) (inFlight p)
          (styleUpdates p) (triggered p).

(** [model.generateContent(systemPrompt)] is called: one more call
    awaits its reply. *)
Definition generateContent (p : Panel) : Panel :=
  mkPanel (prompt p) (panelLoading p) (generatedStyles p) (aiApiKey p)
          (localStorage p) (toasts p)
          (requests p ++ [(aiApiKey p, prompt p)]) (S (inFlight p))
          (styleUpdates p) (triggered p).

(** The awaited call has settled. *)
Definition settled (p : Panel) : Panel :=
  mkPanel (prompt p) (panelLoading p) (generatedStyles p) (aiApiKey p)
          (localStorage p) (toasts p) (requests p) (pred (inFlight p))
          (styleUpdates p) (triggered p).

Definition apiKeyItem : string := "google-ai-api-key".

(** [handleApiKeySave] *)
Definition handleApiKeySave (p : Panel) : Panel :=
  with_toast success_ApiKeySaved
    (mkPanel (prompt p) (panelLoading p) (generatedStyles p) (aiApiKey p)
             (setItem (localStorage p) apiKeyItem (aiApiKey p)) (toasts p)
             (requests p) (inFlight p) (styleUpdates p) (triggered p)).

(** The panel after its first render and its mount effect:
    [const savedApiKey = localStorage.getItem(...); if (savedApiKey)
    setAiApiKey(savedApiKey);] *)
Definition openPanel (st : Storage) : Panel :=
  let fresh := mkPanel "" false (JSArray []) "" st [] [] 0 [] [] in
  match getItem st apiKeyItem with
  | Some savedApiKey =>
      if negb (String.eqb savedApiKey "") then setAiApiKey savedApiKey fresh
      else fresh
  | None => fresh
  end.

(** [applyStyle(style)] *)
Definition applyStyle (style : Obj) (p : Panel) : Panel :=
  with_toast (success_Applied (getProp style "name"))
    (mkPanel (prompt p) (panelLoading p) (generatedStyles p) (aiApiKey p)
             (localStorage p) (toasts p) (requests p) (inFlight p)
             (styleUpdates p ++ [applyStyle_updates style]) (triggered p)).

(** [handleAnimationTrigger(animation)]; the modal also records the
    selection, which nothing reads. *)
Definition handleAnimationTrigger (animation : string) (p : Panel) : Panel :=
  with_toast (success_Playing animation)
    (mkPanel (prompt p) (panelLoading p) (generatedStyles p) (aiApiKey p)
             (localStorage p) (toasts p) (requests p) (inFlight p)
             (styleUpdates p) (triggered p ++ [animation])).

(** How an awaited [generateContent] ends: a reply with its text, or a
    rejection (network, key, quota). *)
Inductive Outcome :=
| Resolved (text : string)
| Rejected.

Section Generate.

(** [JSON.parse]: [None] when it throws. *)
Variable JSON_parse : string -> option JSValue.

(** [generateStyles] up to its [await]. *)
Definition generateStyles_start (p : Panel) : Panel :=
  if String.eqb (aiApiKey p) "" then with_toast error_NoApiKey p
  else if String.eqb (prompt p) "" then with_toast error_NoPrompt p
  else generateContent (setPanelLoading true p).

(** [generateStyles] from its [await] on: the [try] body, [catch] and
    [finally]. *)
Definition generateStyles_settle (o : Outcome) (p : Panel) : Panel :=
  let after_try :=
    match o with
    | Resolved text =>
        match jsonMatch text with
        | Some m =>
            match JSON_parse m with
            | Some styles => setGeneratedStyles styles p
            | None => with_toast error_GenerateFailed p
            end
        | None => with_toast error_GenerateFailed p
        end
    | Rejected => with_toast error_GenerateFailed p
    end in
  settled (setPanelLoading false after_try).

Inductive PanelEvent :=
| TypePrompt (value : string)      (* the textarea, or a suggestion badge *)
| TypeApiKey (value : string)      (* either key input *)
| ClickSaveApiKey
| ClickGenerate
| Settle (o : Outcome)             (* the awaited call ends *)
| ClickStyle (style : Obj)         (* a quick style or a generated one *)
| ClickPreview (animation : string).

(** One turn of the event loop.  The Generate button carries
    [disabled={isLoading || !aiApiKey}]; a reply can only arrive for a
    call that awaits one. *)
Definition panelDispatch (e : PanelEvent) (p : Panel) : Panel :=
  match e with
  | TypePrompt v => setPrompt v p
  | TypeApiKey v => setAiApiKey v p
  | ClickSaveApiKey => handleApiKeySave p
  | ClickGenerate =>
      if panelLoading p || String.eqb (aiApiKey p) "" then p
      else generateStyles_start p
  | Settle o =>
      match inFlight p with
      | O => p
      | S _ => generateStyles_settle o p
      end
  | ClickStyle style => applyStyle style p
  | ClickPreview animation => handleAnimationTrigger animation p
  end.

Definition panelRun (es : list PanelEvent) (p : Panel) : Panel :=
  fold_left (fun p' e => panelDispatch e p') es p.

(** What a settled call yields for [setGeneratedStyles], if anything. *)
Definition usable (o : Outcome) : option JSValue :=
  match o with
  | Resolved text =>
      match jsonMatch text with
      | Some m => JSON_parse m
      | None => None
      end
  | Rejected => None
  end.

End Generate.

(** A panel is in order: no call awaits a reply and the loading flag is
    down, or exactly one does and the flag is up; every request went out
    with a key and a prompt; the missing-key toast was never shown. *)
Definition sound (p : Panel) : Prop :=
  ((inFlight p = 0%nat /\ panelLoading p = false)
   \/ (inFlight p = 1%nat /\ panelLoading p = true))
  /\ Forall (fun r => fst r <> ""%string /\ snd r <> ""%string) (requests p)
  /\ ~ In error_NoApiKey (toasts p).

(** ** Further vocabulary for the overlay element *)

(** The commit signals among a history's events. *)
Definition commits (es : list Event) : nat :=
  List.length (filter is_commit es).

(** The drag has listeners on the document. *)
Definition listening (w : World) : bool :=
  match mousemoveListeners w with
  | [] => false
  | _ :: _ => true
  end.

(** The dragging flag, [cursor-grabbing] in the rendered class list. *)
Definition dragging (w : World) : bool :=
  match hooks w with
  | Some s => isDragging s
  | None => false
  end.

(** Pointer-downs on the element, one per position. *)
Definition presses (ds : list (float * float)) : list Event :=
  map (fun d => MouseDown (fst d) (snd d)) ds.

(** The dragging flag follows the listeners, in the form that is
    preserved step by step. *)
Definition flag_tracks_listeners (w : World) : Prop :=
  paired w /\ (hooks w <> None -> dragging w = listening w).

(** The five names the [switch] of [playAnimation] knows. *)
Definition knownAnimation (animation : string) : bool :=
  String.eqb animation "fadeIn" || String.eqb animation "slideIn"
  || String.eqb animation "bounce" || String.eqb animation "typewriter"
  || String.eqb animation "glow".

(** [Math.min(style.fontSize / divisor, cap)], the font size of a
    generated style's preview: [/ 2] capped at 24 in the modal, [/ 3]
    capped at 14 in the properties panel; [fontSize] a number. *)
Definition previewFontSize (divisor cap fontSize : float) : float :=
  JS.Math_min (PrimFloat.div fontSize divisor) cap.

(** * Facts about binary64 comparison, rounding and clamping *)

Module JSFacts.

Section Compare.

Lemma SFcompare_refl (x : spec_float) :
  x <> S754_nan -> SFcompare x x = Some Eq.
Proof.
  destruct x as [s | s | | s m e]; intros H; try congruence.
  - reflexivity.
  - destruct s; reflexivity.
  - cbn. rewrite Z.compare_refl, Pos.compare_cont_refl. destruct s; reflexivity.
Qed.

Lemma SFcompare_swap (x y : spec_float) :
  SFcompare y x = option_map CompOpp (SFcompare x y).
Proof.
  destruct x as [s | s | | s m e], y as [s' | s' | | s' m' e'];
    try reflexivity;
    try (destruct s; reflexivity);
    try (destruct s'; reflexivity);
    try (destruct s, s'; reflexivity).
  destruct s, s'; cbn; try reflexivity;
    rewrite (Z.compare_antisym e' e);
    destruct (e' ?= e)%Z; cbn; try reflexivity;
    pose proof (Pos.compare_cont_antisym m' m Eq) as A; cbn in A;
    rewrite <- A; try rewrite CompOpp_involutive; reflexivity.
Qed.

End Compare.

Section Rounding.

Variables prec emax : Z.

Lemma shr_1_nonneg (mrs : shr_record) :
  (0 <= shr_m mrs)%Z -> (0 <= shr_m (shr_1 mrs))%Z.
Proof.
  destruct mrs as [m r s]. cbn [shr_m]. intros H.
  destruct m as [ | [p | p | ] | p]; cbn; lia.
Qed.

Lemma iter_pos_invariant {A : Type} (P : A -> Prop) (f : A -> A) :
  (forall a, P a -> P (f a)) ->
  forall n a, P a -> P (iter_pos f n a).
Proof.
  intros Hf. induction n as [n IH | n IH | ]; intros a Ha; cbn.
  - apply IH, IH, Hf, Ha.
  - apply IH, IH, Ha.
  - apply Hf, Ha.
Qed.

Lemma shr_fexp_nonneg (m e : Z) (l : location) :
  (0 <= m)%Z -> (0 <= shr_m (fst (shr_fexp prec emax m e l)))%Z.
Proof.
  intros H. unfold shr_fexp, shr.
  assert (H0 : (0 <= shr_m (shr_record_of_loc m l))%Z).
  { destruct l as [ | [ | | ]]; exact H. }
  destruct (fexp prec emax (Zdigits2 m + e) - e)%Z; cbn [fst]; try exact H0.
  apply (iter_pos_invariant (fun r => (0 <= shr_m r)%Z)); [apply shr_1_nonneg | exact H0].
Qed.

Lemma round_nearest_even_nonneg (m : Z) (l : location) :
  (0 <= m)%Z -> (0 <= round_nearest_even m l)%Z.
Proof.
  intros H. destruct l as [ | [ | | ]]; cbn; try lia.
  destruct (Z.even m); lia.
Qed.

Lemma binary_round_aux_signed (mx ex : Z) (lx : location) :
  (0 <= mx)%Z ->
  exists k, forall s, binary_round_aux prec emax s mx ex lx = signed s k.
Proof.
  intros H. unfold binary_round_aux.
  pose proof (shr_fexp_nonneg mx ex lx H) as H1.
  destruct (shr_fexp prec emax mx ex lx) as [mrs' e']. cbn [fst] in H1.
  pose proof (shr_fexp_nonneg _ e' loc_Exact
                (round_nearest_even_nonneg _ (loc_of_shr_record mrs') H1)) as H2.
  destruct (shr_fexp prec emax _ e' loc_Exact) as [mrs'' e'']. cbn [fst] in H2.
  destruct (shr_m mrs'') as [ | m | m].
  - exists MZero. reflexivity.
  - destruct (e'' <=? emax - prec)%Z.
    + exists (MFinite m e''). reflexivity.
    + exists MInfinity. reflexivity.
  - lia.
Qed.

Lemma SFdiv_core_binary_nonneg (m1 m2 : positive) (e1 e2 : Z) :
  (0 <= fst (fst (SFdiv_core_binary prec emax (Zpos m1) e1 (Zpos m2) e2)))%Z.
Proof.
  unfold SFdiv_core_binary.
  set (s := (e1 - e2 - _)%Z).
  set (m' := match s with Zpos _ => Z.shiftl (Zpos m1) s | Z0 => Zpos m1 | Zneg _ => 0%Z end).
  assert (Hm : (0 <= m')%Z).
  { subst m'. destruct s; try lia. apply Z.shiftl_nonneg. lia. }
  pose proof (Z.div_pos m' (Zpos m2) Hm ltac:(lia)) as Hq.
  unfold Z.div in Hq.
  destruct (Z.div_eucl m' (Zpos m2)) as [q r]. exact Hq.
Qed.

Lemma SFleb_signed (k : magnitude) :
  SFleb (signed true k) (signed false k) = true.
Proof. destruct k; reflexivity. Qed.

(** Dividing [-x] and [x] by a positive finite number, for [x] not
    below zero, gives an ordered pair. *)
Lemma SFdiv_opp_le (x : spec_float) (m : positive) (e : Z) :
  SFleb (S754_zero false) x = true ->
  SFleb (SFdiv prec emax (SFopp x) (S754_finite false m e))
        (SFdiv prec emax x (S754_finite false m e)) = true.
Proof.
  destruct x as [s | s | | s mx ex]; intros H.
  - destruct s; reflexivity.
  - destruct s; [discriminate | reflexivity].
  - discriminate.
  - destruct s; [discriminate | ].
    cbn [SFopp negb SFdiv].
    pose proof (SFdiv_core_binary_nonneg mx m ex e) as Hq.
    destruct (SFdiv_core_binary prec emax (Zpos mx) ex (Zpos m) e) as [[mz ez] lz].
    cbn [fst] in Hq.
    destruct (binary_round_aux_signed mz ez lz Hq) as [k Hk].
    rewrite !Hk. apply SFleb_signed.
Qed.

End Rounding.

Section Order.

Local Open Scope float_scope.

Lemma is_nan_Prim2SF (a : float) :
  is_nan a = false <-> Prim2SF a <> S754_nan.
Proof.
  unfold is_nan. rewrite eqb_spec. unfold SFeqb.
  destruct (Prim2SF a) eqn:E; split; intros H; try congruence;
    try (rewrite SFcompare_refl by congruence; reflexivity).
  cbn in H. discriminate.
Qed.

Lemma leb_refl (a : float) : is_nan a = false -> (a <=? a) = true.
Proof.
  intros H. apply is_nan_Prim2SF in H.
  rewrite leb_spec. unfold SFleb. rewrite SFcompare_refl by assumption.
  reflexivity.
Qed.

Lemma ltb_leb (a b : float) : (a <? b) = true -> (a <=? b) = true.
Proof.
  rewrite ltb_spec, leb_spec. unfold SFltb, SFleb.
  destruct (SFcompare (Prim2SF a) (Prim2SF b)) as [[ | | ] | ]; congruence.
Qed.

Lemma not_ltb_leb (a b : float) :
  is_nan a = false -> is_nan b = false ->
  (a <? b) = false -> (b <=? a) = true.
Proof.
  intros Ha Hb. apply is_nan_Prim2SF in Ha. apply is_nan_Prim2SF in Hb.
  rewrite ltb_spec, leb_spec. unfold SFltb, SFleb.
  rewrite (SFcompare_swap (Prim2SF a) (Prim2SF b)).
  destruct (Prim2SF a), (Prim2SF b); try congruence;
    match goal with
    | |- context [SFcompare ?x ?y] => destruct (SFcompare x y) as [[ | | ] | ] eqn:E
    end; cbn; try congruence; cbn in E; try discriminate;
    repeat match goal with s : bool |- _ => destruct s end; discriminate.
Qed.

Lemma leb_not_nan (a b : float) :
  (a <=? b) = true -> is_nan a = false /\ is_nan b = false.
Proof.
  rewrite leb_spec. unfold SFleb. intros H.
  split; apply is_nan_Prim2SF; intros E; rewrite E in H;
    destruct (Prim2SF a), (Prim2SF b); cbn in H; discriminate.
Qed.

(** [Math.max(lo, Math.min(hi, v))] lies between [lo] and [hi] once
    the bounds are ordered and [v] is a number. *)
Lemma clamp_within (lo hi v : float) :
  (lo <=? hi) = true -> is_nan v = false ->
  JS.within lo hi (JS.Math_max lo (JS.Math_min hi v)) = true.
Proof.
  intros Hb Hv. destruct (leb_not_nan _ _ Hb) as [Hlo Hhi].
  assert (Hm : is_nan (JS.Math_min hi v) = false
               /\ (JS.Math_min hi v <=? hi) = true).
  { unfold JS.Math_min. rewrite Hhi, Hv. cbn [orb].
    destruct (hi <? v) eqn:E1.
    - split; [assumption | now apply leb_refl].
    - destruct (v <? hi) eqn:E2.
      + split; [assumption | now apply ltb_leb].
      + destruct (get_sign hi).
        * split; [assumption | now apply leb_refl].
        * split; [assumption | now apply not_ltb_leb]. }
  destruct Hm as [Hm1 Hm2]. unfold JS.within, JS.Math_max.
  rewrite Hlo, Hm1. cbn [orb].
  destruct (lo <? JS.Math_min hi v) eqn:E1.
  - rewrite (ltb_leb _ _ E1), Hm2. reflexivity.
  - destruct (JS.Math_min hi v <? lo) eqn:E2.
    + rewrite (leb_refl _ Hlo), Hb. reflexivity.
    + destruct (get_sign lo).
      * rewrite Hm2, (not_ltb_leb _ _ Hm1 Hlo E2). reflexivity.
      * rewrite (leb_refl _ Hlo), Hb. reflexivity.
Qed.

End Order.

Section Half.
Local Open Scope float_scope.

Lemma half_bounds_ordered (w : float) :
  (0 <=? w) = true -> ((- w) / 2 <=? w / 2) = true.
Proof.
  intros H. rewrite leb_spec in H. rewrite leb_spec, !div_spec, opp_spec.
  change (Prim2SF 0) with (S754_zero false) in H.
  change (Prim2SF 2) with (S754_finite false 4503599627370496 (-51)).
  apply SFdiv_opp_le. exact H.
Qed.
End Half.

End JSFacts.

(** * What each kind of event leaves alone *)

Module Frames.

Lemma run_app (es es' : list Event) (w : World) :
  run (es ++ es') w = run es' (run es w).
Proof. unfold run. apply fold_left_app. Qed.

(** Move signals only ever add position updates. *)
Lemma moves_frame (ls : list (nat * MoveClosure)) (clientX clientY : float)
      (w : World) :
  let w' := fold_left (fun w' l => handleMouseMove (snd l) clientX clientY w') ls w in
  hooks w' = hooks w /\ timelines w' = timelines w
  /\ content w' = content w /\ writes w' = writes w
  /\ mousemoveListeners w' = mousemoveListeners w
  /\ mouseupListeners w' = mouseupListeners w.
Proof.
  revert w. induction ls as [ | l ls IH]; intros w; cbn.
  - repeat split.
  - destruct (IH (handleMouseMove (snd l) clientX clientY w))
      as (H1 & H2 & H3 & H4 & H5 & H6).
    rewrite H1, H2, H3, H4, H5, H6.
    unfold handleMouseMove. destruct (currentPreviewRef w); repeat split.
Qed.

(** Without a reference rectangle a move signal changes nothing. *)
Lemma moves_no_preview (ls : list (nat * MoveClosure)) (clientX clientY : float)
      (w : World) :
  currentPreviewRef w = None ->
  fold_left (fun w' l => handleMouseMove (snd l) clientX clientY w') ls w = w.
Proof.
  intros Hp. induction ls as [ | l ls IH]; cbn; [ reflexivity | ].
  unfold handleMouseMove at 2. rewrite Hp. exact IH.
Qed.

(** With one, every listener delivers its position, in order. *)
Lemma moves_positions (ls : list (nat * MoveClosure)) (clientX clientY : float)
      (w : World) (rect : DOMRect.t) :
  currentPreviewRef w = Some rect ->
  let w' := fold_left (fun w' l => handleMouseMove (snd l) clientX clientY w') ls w in
  positionUpdates w'
  = positionUpdates w
    ++ map (fun l => Point.mk (constrainedX (snd l) rect clientX)
                              (constrainedY (snd l) rect clientY)) ls.
Proof.
  revert w. induction ls as [ | l ls IH]; intros w Hp; cbn.
  - rewrite app_nil_r. reflexivity.
  - rewrite IH.
    + unfold handleMouseMove. rewrite Hp. cbn. rewrite <- app_assoc. reflexivity.
    + unfold handleMouseMove. rewrite Hp. exact Hp.
Qed.

(** Props stay as they are. *)
Lemma moves_props (ls : list (nat * MoveClosure)) (clientX clientY : float)
      (w : World) :
  let w' := fold_left (fun w' l => handleMouseMove (snd l) clientX clientY w') ls w in
  externalPreviewRef w' = externalPreviewRef w
  /\ canvasSize w' = canvasSize w /\ elementRect w' = elementRect w.
Proof.
  revert w. induction ls as [ | l ls IH]; intros w; cbn.
  - repeat split.
  - destruct (IH (handleMouseMove (snd l) clientX clientY w)) as (H1 & H2 & H3).
    rewrite H1, H2, H3. unfold handleMouseMove.
    destruct (currentPreviewRef w); repeat split.
Qed.

(** Release signals touch the dragging flag and the listeners only. *)
Lemma ups_frame (ids : list nat) (w : World) :
  let w' := fold_left (fun w' id => handleMouseUp id w') ids w in
  running w' = running w /\ editing w' = editing w /\ draft w' = draft w
  /\ timelines w' = timelines w
  /\ content w' = content w /\ writes w' = writes w
  /\ positionUpdates w' = positionUpdates w
  /\ (hooks w = None -> hooks w' = None).
Proof.
  revert w. induction ids as [ | id ids IH]; intros w; cbn.
  - repeat split. auto.
  - destruct (IH (handleMouseUp id w)) as (H1 & H2 & H3 & H4 & H5 & H6 & H7 & H8).
    rewrite H1, H2, H3, H4, H5, H6, H7.
    unfold running, editing, draft. cbn.
    destruct (hooks w) eqn:Hh; cbn; repeat split; try discriminate.
    intros _. apply H8. cbn. rewrite Hh. reflexivity.
Qed.

(** Calls of one [playAnimation] closure either change nothing or leave
    the flag up and some list of pending timelines behind. *)
Lemma triggers_shape (s : State) (animations : list string) (w : World) :
  let w' := fold_left (fun w' animation => playAnimation s animation w') animations w in
  w' = w \/ exists tls, w' = set_timelines tls (setIsAnimating true w).
Proof.
  assert (G : forall (l : list string) (w1 : World),
             (w1 = w \/ exists tls, w1 = set_timelines tls (setIsAnimating true w)) ->
             let w' := fold_left (fun w' animation => playAnimation s animation w') l w1 in
             w' = w \/ exists tls, w' = set_timelines tls (setIsAnimating true w)).
  { induction l as [ | a l IH]; intros w1 H1; cbn; [ exact H1 | ].
    apply IH. unfold playAnimation.
    destruct (negb (gsapRef s) || isAnimating s); [ exact H1 | ].
    right. destruct H1 as [-> | [tls ->]].
    - eexists. reflexivity.
    - eexists. destruct w as [c ws cs pr er pu [h | ] nc mm mu tl]; reflexivity. }
  apply G. left. reflexivity.
Qed.

(** They touch nothing but the busy flag and the pending timelines. *)
Lemma triggers_frame (s : State) (animations : list string) (w : World) :
  let w' := fold_left (fun w' animation => playAnimation s animation w') animations w in
  content w' = content w /\ writes w' = writes w
  /\ canvasSize w' = canvasSize w /\ externalPreviewRef w' = externalPreviewRef w
  /\ elementRect w' = elementRect w /\ positionUpdates w' = positionUpdates w
  /\ nextClosure w' = nextClosure w
  /\ mousemoveListeners w' = mousemoveListeners w
  /\ mouseupListeners w' = mouseupListeners w
  /\ editing w' = editing w /\ draft w' = draft w /\ dragging w' = dragging w
  /\ (hooks w = None <-> hooks w' = None).
Proof.
  destruct (triggers_shape s animations w) as [E | [tls E]]; cbv zeta; rewrite E.
  - repeat split; auto.
  - unfold editing, draft, dragging. cbn.
    destruct (hooks w); cbn; repeat split; auto; discriminate.
Qed.


Lemma dispatch_unmounted (e : Event) (w : World) :
  hooks w = None -> hooks (dispatch e w) = None.
Proof.
  intros Hh. destruct e; cbn; try (rewrite Hh; exact Hh); try reflexivity.
  - rewrite <- Hh. apply (moves_frame (mousemoveListeners w) clientX clientY w).
  - apply (ups_frame (mouseupListeners w) w). exact Hh.
  - unfold onComplete. destruct (timelines w); cbn; rewrite Hh; reflexivity.
Qed.



End Frames.

(** * Drag *)

Module DragFacts.

Local Open Scope float_scope.

Lemma handleMouseDown_starts (w : World) (s : State) (er : DOMRect.t)
      (downX downY : float) :
  hooks w = Some s -> isEditing s = false -> elementRect w = Some er ->
  let grab := Point.mk (downX - (DOMRect.left er + DOMRect.width er / 2))
                       (downY - (DOMRect.top er + DOMRect.height er / 2)) in
  dispatch (MouseDown downX downY) w
  = addEventListeners (mkMove grab (canvasSize w))
      (setIsDragging true (setDragOffset grab w)).
Proof.
  intros Hh He Hr grab. cbn. rewrite Hh. unfold handleMouseDown.
  rewrite He, Hr. reflexivity.
Qed.

(** With the reference rectangle available, a run of move signals
    delivers, signal after signal, one position per drag listener on
    the document. *)
Lemma moves_deliver (ms : list (float * float)) (w : World) (rect : DOMRect.t) :
  currentPreviewRef w = Some rect ->
  positionUpdates (run (moves ms) w)
  = positionUpdates w
    ++ flat_map (fun m =>
                   map (fun l => Point.mk (constrainedX (snd l) rect (fst m))
                                          (constrainedY (snd l) rect (snd m)))
                       (mousemoveListeners w)) ms.
Proof.
  revert w. induction ms as [ | m ms IH]; intros w Hp.
  - cbn. rewrite app_nil_r. reflexivity.
  - change (run (moves (m :: ms)) w)
      with (run (moves ms) (dispatch (MouseMove (fst m) (snd m)) w)).
    set (w1 := dispatch (MouseMove (fst m) (snd m)) w).
    assert (P1 : positionUpdates w1
                 = positionUpdates w
                   ++ map (fun l => Point.mk (constrainedX (snd l) rect (fst m))
                                             (constrainedY (snd l) rect (snd m)))
                          (mousemoveListeners w)).
    { apply (Frames.moves_positions (mousemoveListeners w) (fst m) (snd m) w rect Hp). }
    assert (L1 : mousemoveListeners w1 = mousemoveListeners w).
    { apply (Frames.moves_frame (mousemoveListeners w) (fst m) (snd m) w). }
    assert (R1 : currentPreviewRef w1 = Some rect).
    { unfold currentPreviewRef in *.
      destruct (Frames.moves_props (mousemoveListeners w) (fst m) (snd m) w) as (E & _).
      change (externalPreviewRef w1 = externalPreviewRef w) in E.
      rewrite E. exact Hp. }
    rewrite (IH w1 R1), P1, L1. cbn [flat_map]. rewrite <- app_assoc. reflexivity.
Qed.

(** C1 (as amended).  Whatever the rectangle and the canvas, a move
    signal with the reference rectangle available makes every drag
    listener on the document deliver exactly one position to
    [onPositionUpdate], in order:
    [Math.max(-W/2, Math.min(W/2, rawX))] and likewise for Y, where
    [rawX = ((pointerX - grabX - rect.left) / rect.width - 0.5) * W],
    with the grab offset and the canvas size the listener captured.  A
    pointer-down on a mounted, non-editing element whose rectangle is
    known adds the listener whose grab offset is the pointer-down
    position minus the element's centre and whose canvas size is the
    current one; the move signals that follow deliver by that formula,
    for it and for any listener pending from before.  On each axis,
    when the canvas extent is a number not below zero, a delivered
    coordinate whose raw value is not NaN lies within [-W/2, W/2]
    (resp. [-H/2, H/2]).  In the documented scene (canvas 1920x1080,
    reference rectangle 0,0,960,540, grab offset 0,0, pointer at 1000,0)
    the delivered X is exactly 960. *)
Theorem C1_drag_move_position :
  let delivered :=
    fun (c : MoveClosure) (rect : DOMRect.t) (clientX clientY : float) =>
      let W := Size.width (closureCanvas c) in
      let H := Size.height (closureCanvas c) in
      let rawX :=
        ((clientX - Point.x (offset c) - DOMRect.left rect) / DOMRect.width rect - 0.5) * W in
      let rawY :=
        ((clientY - Point.y (offset c) - DOMRect.top rect) / DOMRect.height rect - 0.5) * H in
      Point.mk (JS.Math_max ((- W) / 2) (JS.Math_min (W / 2) rawX))
               (JS.Math_max ((- H) / 2) (JS.Math_min (H / 2) rawY)) in
  (forall (w : World) (rect : DOMRect.t) (clientX clientY : float),
      currentPreviewRef w = Some rect ->
      positionUpdates (dispatch (MouseMove clientX clientY) w)
      = positionUpdates w
        ++ map (fun l => delivered (snd l) rect clientX clientY) (mousemoveListeners w))
  /\ (forall (w : World) (s : State) (er rect : DOMRect.t)
             (downX downY : float) (ms : list (float * float)),
         hooks w = Some s -> isEditing s = false ->
         elementRect w = Some er -> currentPreviewRef w = Some rect ->
         let grab :=
           Point.mk (downX - (DOMRect.left er + DOMRect.width er / 2))
                    (downY - (DOMRect.top er + DOMRect.height er / 2)) in
         positionUpdates (run (MouseDown downX downY :: moves ms) w)
         = positionUpdates w
           ++ flat_map (fun m =>
                          map (fun c => delivered c rect (fst m) (snd m))
                              (map snd (mousemoveListeners w)
                               ++ [mkMove grab (canvasSize w)])) ms)
  /\ (forall (c : MoveClosure) (rect : DOMRect.t) (clientX clientY : float),
         let W := Size.width (closureCanvas c) in
         let H := Size.height (closureCanvas c) in
         let rawX :=
           ((clientX - Point.x (offset c) - DOMRect.left rect) / DOMRect.width rect - 0.5) * W in
         let rawY :=
           ((clientY - Point.y (offset c) - DOMRect.top rect) / DOMRect.height rect - 0.5) * H in
         ((0 <=? W) = true -> is_nan rawX = false ->
          JS.within ((- W) / 2) (W / 2) (Point.x (delivered c rect clientX clientY)) = true)
         /\ ((0 <=? H) = true -> is_nan rawY = false ->
             JS.within ((- H) / 2) (H / 2) (Point.y (delivered c rect clientX clientY)) = true))
  /\ positionUpdates (run [MouseDown 480 270; MouseMove 1000 0] Scene.preview)
     = [Point.mk 960 (-540)].
Proof.
  intros delivered.
  split; [ | split; [ | split; [ | vm_compute; reflexivity ] ] ].
  - intros w rect clientX clientY Hp.
    apply (Frames.moves_positions (mousemoveListeners w) clientX clientY w rect Hp).
  - intros w s er rect downX downY ms Hh He Hr Hp grab.
    change (run (MouseDown downX downY :: moves ms) w)
      with (run (moves ms) (dispatch (MouseDown downX downY) w)).
    rewrite (handleMouseDown_starts w s er downX downY Hh He Hr).
    rewrite (moves_deliver ms _ rect); [ | exact Hp ].
    cbn [positionUpdates mousemoveListeners addEventListeners setIsDragging
         setDragOffset with_hooks].
    f_equal. apply flat_map_ext. intros m.
    rewrite !map_app, map_map. reflexivity.
  - intros c rect clientX clientY W H rawX rawY. split; intros HW Hn.
    + apply JSFacts.clamp_within; [ | exact Hn ].
      apply JSFacts.half_bounds_ordered. exact HW.
    + apply JSFacts.clamp_within; [ | exact Hn ].
      apply JSFacts.half_bounds_ordered. exact HW.
Qed.

(** The documented scene, through the general statement. *)
Lemma C1_documented_example :
  positionUpdates (run [MouseDown 480 270; MouseMove 1000 0] Scene.preview)
  = positionUpdates Scene.preview ++ [Point.mk 960 (-540)]
  /\ JS.within ((- 1920) / 2) (1920 / 2) 960 = true
  /\ JS.within ((- 1080) / 2) (1080 / 2) (-540) = true.
Proof.
  pose proof (proj1 (proj2 C1_drag_move_position) Scene.preview
                (mkState false false (Point.mk 0 0) "A" false)
                Scene.centred Scene.halfScale 480 270 [(1000, 0)]
                eq_refl eq_refl eq_refl eq_refl) as E.
  destruct (proj1 (proj2 (proj2 C1_drag_move_position))
              (mkMove (Point.mk 0 0) Scene.canvas) Scene.halfScale 1000 0)
    as [HX HY].
  split; [ exact E | split ].
  - exact (HX eq_refl eq_refl).
  - exact (HY eq_refl eq_refl).
Defined.

(** C1 as stated fails outside that domain.  With a reference
    rectangle of no extent and the pointer on its origin, [0 / 0] is
    NaN, [Math.min] and [Math.max] pass it on, and NaN is what
    [onPositionUpdate] receives; it lies in no interval.  With a canvas
    width below zero the two bounds are swapped and the delivered X is
    the first argument of [Math.max], outside the (empty) range. *)
Lemma C1_bounds_fail_outside_domain :
  (exists p,
      positionUpdates (run [MouseDown 480 270; MouseMove 0 0] Scene.collapsed) = [p]
      /\ is_nan (Point.x p) = true
      /\ JS.within ((- 1920) / 2) (1920 / 2) (Point.x p) = false)
  /\ (exists p,
         positionUpdates
           (run [MouseDown 480 270; MouseMove 480 270]
                (mount "A" (Size.mk (-2) 1080) (Some (Some Scene.halfScale))
                       (Some Scene.centred))) = [p]
         /\ Point.x p = 1
         /\ JS.within ((- (-2)) / 2) ((-2) / 2) (Point.x p) = false).
Proof.
  split.
  - exists (Point.mk nan nan). vm_compute. repeat split.
  - exists (Point.mk 1 0). vm_compute. repeat split.
Qed.

(** C9.  In editing mode a pointer-down on the element changes
    nothing: the dragging flag, the grab offset, the document's
    listeners and the position log are as before, both for the handler
    and for the event as dispatched. *)
Theorem C9_editing_suppresses_drag
        (w : World) (s : State) (clientX clientY : float) :
  hooks w = Some s -> isEditing s = true ->
  dispatch (MouseDown clientX clientY) w = w
  /\ handleMouseDown s clientX clientY w = w.
Proof.
  intros Hh He. cbn. rewrite Hh. unfold handleMouseDown. rewrite He. auto.
Qed.

Lemma C9_pointer_down_while_editing :
  let w := run [DoubleClick] Scene.preview in
  dispatch (MouseDown 480 270) w = w
  /\ handleMouseDown (mkState true false (Point.mk 0 0) "A" false) 480 270 w = w.
Proof.
  exact (C9_editing_suppresses_drag (run [DoubleClick] Scene.preview)
           (mkState true false (Point.mk 0 0) "A" false) 480 270 eq_refl eq_refl).
Defined.

(** C10.  Outside editing mode, a pointer-down while the element's
    own rectangle is unavailable changes nothing (no grab offset, no
    active drag, no listener); with no listener pending from before, a
    move signal that follows delivers no position. *)
Theorem C10_no_rect_no_drag
        (w : World) (s : State) (clientX clientY : float) :
  hooks w = Some s -> isEditing s = false -> elementRect w = None ->
  dispatch (MouseDown clientX clientY) w = w
  /\ (mousemoveListeners w = [] ->
      forall moveX moveY,
        positionUpdates (run [MouseDown clientX clientY; MouseMove moveX moveY] w)
        = positionUpdates w).
Proof.
  intros Hh He Hr.
  assert (E : dispatch (MouseDown clientX clientY) w = w).
  { cbn. rewrite Hh. unfold handleMouseDown. rewrite He, Hr. reflexivity. }
  split; [ exact E | ].
  intros Hl mx my. unfold run. cbn [fold_left]. rewrite E. cbn. rewrite Hl. reflexivity.
Qed.

Lemma C10_pointer_down_unmeasured :
  dispatch (MouseDown 480 270) Scene.unmeasured = Scene.unmeasured
  /\ positionUpdates (run [MouseDown 480 270; MouseMove 1000 0] Scene.unmeasured) = [].
Proof.
  destruct (C10_no_rect_no_drag Scene.unmeasured
              (mkState false false (Point.mk 0 0) "A" false) 480 270
              eq_refl eq_refl eq_refl) as [E F].
  split; [ exact E | exact (F eq_refl 1000 0) ].
Defined.

End DragFacts.

(** * The document's listeners *)

Module Listeners.

Local Open Scope float_scope.

Lemma filter_all_true {A : Type} (l : list A) : filter (fun _ => true) l = l.
Proof. induction l; cbn; congruence. Qed.

Lemma filter_filter {A : Type} (f g : A -> bool) (l : list A) :
  filter f (filter g l) = filter (fun a => g a && f a) l.
Proof.
  induction l as [ | a l IH]; cbn; [ reflexivity | ].
  destruct (g a); cbn; [ destruct (f a) | ]; rewrite IH; reflexivity.
Qed.

Lemma filter_none {A : Type} (f : A -> bool) (l : list A) :
  (forall a, In a l -> f a = false) -> filter f l = [].
Proof.
  induction l as [ | a l IH]; intros H; cbn; [ reflexivity | ].
  rewrite (H a (or_introl eq_refl)). apply IH. intros b Hb. apply H. right. exact Hb.
Qed.

Lemma existsb_self (ids : list nat) (id : nat) :
  In id ids -> existsb (Nat.eqb id) ids = true.
Proof.
  intros H. apply existsb_exists. exists id. split; [ exact H | apply Nat.eqb_refl ].
Qed.

Lemma map_fst_filter (id : nat) (ls : list (nat * MoveClosure)) :
  map fst (filter (fun l => negb (Nat.eqb (fst l) id)) ls)
  = filter (fun l => negb (Nat.eqb l id)) (map fst ls).
Proof.
  induction ls as [ | l ls IH]; cbn; [ reflexivity | ].
  destruct (Nat.eqb (fst l) id); cbn; rewrite IH; reflexivity.
Qed.

(** The [handleMouseUp] closures named [ids] remove exactly their own
    pairs. *)
Lemma ups_listeners (ids : list nat) (w : World) :
  let w' := fold_left (fun w' id => handleMouseUp id w') ids w in
  mousemoveListeners w'
  = filter (fun l => negb (existsb (Nat.eqb (fst l)) ids)) (mousemoveListeners w)
  /\ mouseupListeners w'
     = filter (fun l => negb (existsb (Nat.eqb l) ids)) (mouseupListeners w).
Proof.
  revert w. induction ids as [ | id ids IH]; intros w; cbn.
  - rewrite !filter_all_true. auto.
  - destruct (IH (handleMouseUp id w)) as [H1 H2]. rewrite H1, H2. cbn.
    rewrite !filter_filter.
    split; apply filter_ext; intros a; rewrite negb_orb; reflexivity.
Qed.

Lemma ups_paired (ids : list nat) (w : World) :
  paired w -> paired (fold_left (fun w' id => handleMouseUp id w') ids w).
Proof.
  revert w. induction ids as [ | id ids IH]; intros w Hp; cbn; [ exact Hp | ].
  apply IH. unfold paired in *. cbn. rewrite map_fst_filter, Hp. reflexivity.
Qed.

Lemma dispatch_paired (e : Event) (w : World) : paired w -> paired (dispatch e w).
Proof.
  intros Hp. destruct e; cbn.
  - destruct (hooks w); exact Hp.
  - destruct (hooks w) as [s | ]; [ | exact Hp ].
    unfold handleMouseDown. destruct (isEditing s); [ exact Hp | ].
    destruct (elementRect w); [ | exact Hp ].
    unfold paired in *. cbn. rewrite map_app, Hp. reflexivity.
  - unfold paired in *.
    destruct (Frames.moves_frame (mousemoveListeners w) clientX clientY w)
      as (_ & _ & _ & _ & H1 & H2).
    rewrite H1, H2. exact Hp.
  - apply ups_paired, Hp.
  - destruct (hooks w) as [s | ]; [ | exact Hp ]. destruct (isEditing s); exact Hp.
  - destruct (hooks w) as [s | ]; [ | exact Hp ]. destruct (isEditing s); [ | exact Hp ].
    unfold handleKeyDown.
    destruct (String.eqb key "Enter" && negb shiftKey);
      destruct (String.eqb key "Escape"); cbn;
      try (destruct (String.eqb key "Enter")); exact Hp.
  - destruct (hooks w) as [s | ]; [ | exact Hp ]. destruct (isEditing s); exact Hp.
  - destruct (hooks w) as [s | ]; [ | exact Hp ].
    unfold playAnimation. destruct (negb (gsapRef s) || isAnimating s); exact Hp.
  - destruct (hooks w) as [s | ]; [ | exact Hp ]. unfold paired in *.
    destruct (Frames.triggers_frame s animations w)
      as (_ & _ & _ & _ & _ & _ & _ & H1 & H2 & _).
    rewrite H1, H2. exact Hp.
  - unfold onComplete. destruct (timelines w); exact Hp.
  - exact Hp.
Qed.

Lemma run_paired (es : list Event) (w : World) : paired w -> paired (run es w).
Proof.
  revert w. induction es as [ | e es IH]; intros w Hp; cbn; [ exact Hp | ].
  apply IH, dispatch_paired, Hp.
Qed.

(** Release: every listener a drag added is removed, and a move signal
    delivered afterwards reaches no handler. *)
Lemma release_removes_listeners (w : World) :
  paired w ->
  let w' := dispatch MouseUp w in
  mousemoveListeners w' = [] /\ mouseupListeners w' = []
  /\ forall clientX clientY, dispatch (MouseMove clientX clientY) w' = w'.
Proof.
  intros Hp w'. unfold paired in Hp.
  destruct (ups_listeners (mouseupListeners w) w) as [H1 H2].
  assert (E1 : mousemoveListeners w' = []).
  { subst w'. cbn. rewrite H1. apply filter_none. intros l Hl.
    rewrite existsb_self; [ reflexivity | ]. rewrite <- Hp. apply in_map, Hl. }
  assert (E2 : mouseupListeners w' = []).
  { subst w'. cbn. rewrite H2. apply filter_none. intros l Hl.
    rewrite existsb_self; [ reflexivity | exact Hl ]. }
  repeat split; try assumption.
  intros cx cy.
  change (dispatch (MouseMove cx cy) w')
    with (fold_left (fun w'' l => handleMouseMove (snd l) cx cy w'')
                    (mousemoveListeners w') w').
  rewrite E1. reflexivity.
Qed.

(** The release path of a drag, after any history of the component:
    no drag listener stays behind and later move signals produce no
    position update. *)
Lemma release_ends_session (content0 : string) (canvas : Size.t)
      (preview : option (option DOMRect.t)) (rect : option DOMRect.t)
      (es : list Event) :
  let w := run (es ++ [MouseUp]) (mount content0 canvas preview rect) in
  mousemoveListeners w = [] /\ mouseupListeners w = []
  /\ forall clientX clientY,
      positionUpdates (dispatch (MouseMove clientX clientY) w) = positionUpdates w.
Proof.
  intros w. subst w. rewrite Frames.run_app.
  destruct (release_removes_listeners (run es (mount content0 canvas preview rect)))
    as (H1 & H2 & H3).
  - apply run_paired. reflexivity.
  - change (run [MouseUp] (run es (mount content0 canvas preview rect)))
      with (dispatch MouseUp (run es (mount content0 canvas preview rect))).
    repeat split; try assumption. intros cx cy. rewrite H3. reflexivity.
Qed.

(** C4, at the input where the code departs from it.  A drag starts in
    the documented scene and the component is removed before any
    release signal: the instance is gone, yet the pair of listeners the
    drag added is still on the document, and a move signal delivered
    afterwards still reaches [onPositionUpdate]. *)
Theorem C4_teardown_keeps_drag_listeners :
  let w := run [MouseDown 480 270; Unmount] Scene.preview in
  hooks w = None
  /\ map fst (mousemoveListeners w) = [0%nat]
  /\ mouseupListeners w = [0%nat]
  /\ positionUpdates w = []
  /\ positionUpdates (dispatch (MouseMove 720 405) w) = [Point.mk 480 270].
Proof. vm_compute. repeat split. Qed.

End Listeners.

(** * Inline edit *)

Module EditFacts.

Local Open Scope string_scope.
Local Open Scope list_scope.

Lemma dispatch_commit (w : World) (s : State) (e : Event) :
  hooks w = Some s -> isEditing s = true -> is_commit e = true ->
  dispatch e w = handleTextSave s w.
Proof.
  intros Hh He Hc. destruct e; try discriminate; cbn in *; rewrite Hh, He.
  - unfold handleKeyDown. rewrite Hc.
    apply andb_prop in Hc. destruct Hc as [Hk _].
    apply String.eqb_eq in Hk. subst key. reflexivity.
  - reflexivity.
Qed.

(** Outside editing mode there is no textarea for a commit signal to
    reach. *)
Lemma dispatch_commit_idle (w : World) (e : Event) :
  editing w = false -> is_commit e = true -> dispatch e w = w.
Proof.
  unfold editing. intros He Hc.
  destruct e; try discriminate; cbn; destruct (hooks w) as [s | ];
    try reflexivity; rewrite He; reflexivity.
Qed.

Lemma run_commits_idle (es : list Event) (w : World) :
  editing w = false -> Forall (fun e => is_commit e = true) es -> run es w = w.
Proof.
  intros He Hes. induction Hes as [ | e es Hc _ IH]; cbn; [ reflexivity | ].
  rewrite (dispatch_commit_idle w e He Hc). exact IH.
Qed.

Lemma handleTextSave_effect (w : World) (s : State) :
  hooks w = Some s ->
  let w' := handleTextSave s w in
  content w' = editContent s
  /\ writes w' = writes w ++ [editContent s]
  /\ editing w' = false.
Proof.
  intros Hh. unfold handleTextSave, editing. cbn. rewrite Hh. cbn. auto.
Qed.

(** The handler itself carries no guard: called twice in a row, outside
    the event loop, it writes twice.  Only the conditional rendering of
    the textarea keeps a second commit signal from reaching it. *)
Lemma handleTextSave_twice (w : World) (s : State) :
  writes (handleTextSave s (handleTextSave s w))
  = writes w ++ [editContent s; editContent s].
Proof. cbn. rewrite <- app_assoc. reflexivity. Qed.

(** C2.  In editing mode a commit signal (plain Enter, or blur)
    writes the draft to the store exactly once and returns the session
    to idle, and any commit signals that follow change nothing.
    Starting from stored content "A", entering edit and changing the
    draft to "AB", one commit signal followed by any number of further
    ones (Enter then blur, blur then Enter, ...) leaves stored content
    "AB" with exactly one store write. *)
Theorem C2_commit_writes_once :
  (forall (w : World) (s : State) (e : Event),
      hooks w = Some s -> isEditing s = true -> is_commit e = true ->
      let w' := dispatch e w in
      content w' = editContent s
      /\ writes w' = writes w ++ [editContent s]
      /\ editing w' = false
      /\ forall es, Forall (fun e' => is_commit e' = true) es -> run es w' = w')
  /\ (forall (canvas : Size.t) (preview : option (option DOMRect.t))
             (rect : option DOMRect.t) (e : Event) (es : list Event),
         is_commit e = true -> Forall (fun e' => is_commit e' = true) es ->
         let w := run ([DoubleClick; Change "AB"] ++ e :: es)
                      (mount "A" canvas preview rect) in
         content w = "AB" /\ writes w = ["AB"] /\ editing w = false).
Proof.
  assert (A : forall (w : World) (s : State) (e : Event),
             hooks w = Some s -> isEditing s = true -> is_commit e = true ->
             let w' := dispatch e w in
             content w' = editContent s
             /\ writes w' = writes w ++ [editContent s]
             /\ editing w' = false
             /\ forall es, Forall (fun e' => is_commit e' = true) es -> run es w' = w').
  { intros w s e Hh He Hc w'. subst w'.
    rewrite (dispatch_commit w s e Hh He Hc).
    destruct (handleTextSave_effect w s Hh) as (H1 & H2 & H3).
    repeat split; try assumption.
    intros es Hes. apply run_commits_idle; assumption. }
  split; [ exact A | ].
  intros canvas preview rect e es Hc Hes w. subst w.
  rewrite Frames.run_app.
  set (w1 := run [DoubleClick; Change "AB"] (mount "A" canvas preview rect)).
  destruct (A w1 (mkState true false (Point.mk 0 0) "AB" false) e
              eq_refl eq_refl Hc) as (H1 & H2 & H3 & H4).
  change (run (e :: es) w1) with (run es (dispatch e w1)).
  rewrite (H4 es Hes). auto.
Qed.

Lemma C2_blur_commits_draft :
  let w' := dispatch Blur Scene.drafting in
  content w' = "AB" /\ writes w' = ["AB"] /\ editing w' = false
  /\ run [KeyDown "Enter" false 2; Blur] w' = w'.
Proof.
  destruct (proj1 C2_commit_writes_once Scene.drafting
              (mkState true false (Point.mk 0 0) "AB" false) Blur
              eq_refl eq_refl eq_refl) as (H1 & H2 & H3 & H4).
  split; [ exact H1 | split; [ exact H2 | split; [ exact H3 | ] ] ].
  apply H4. repeat constructor.
Defined.

(** A double-click keeps the session in editing mode and seeds the
    draft from the stored content, whatever the draft was. *)
Lemma handleDoubleClick_seeds (w : World) (s : State) :
  hooks w = Some s ->
  editing (dispatch DoubleClick w) = true
  /\ draft (dispatch DoubleClick w) = Some (content w).
Proof.
  intros Hh. unfold editing, draft. cbn. rewrite Hh. cbn. rewrite Hh. cbn. auto.
Qed.

(** C3, at the input where the code departs from it.  Stored content
    "A", the session editing with draft "AB": a double-click leaves the
    mode at editing but replaces the draft by "A". *)
Theorem C3_double_click_while_editing_reseeds_draft :
  editing Scene.drafting = true
  /\ draft Scene.drafting = Some "AB"
  /\ content Scene.drafting = "A"
  /\ editing (dispatch DoubleClick Scene.drafting) = true
  /\ draft (dispatch DoubleClick Scene.drafting) = Some "A".
Proof. vm_compute. repeat split. Qed.

Lemma run_changes (vs : list string) (w : World) :
  editing w = true ->
  let w' := run (map Change vs) w in
  editing w' = true /\ content w' = content w /\ writes w' = writes w.
Proof.
  revert w. induction vs as [ | v vs IH]; intros w He; cbn.
  - auto.
  - assert (H : editing (dispatch (Change v) w) = true
                /\ content (dispatch (Change v) w) = content w
                /\ writes (dispatch (Change v) w) = writes w).
    { unfold editing in *. cbn.
      destruct (hooks w) as [s | ] eqn:Hh; [ | discriminate ].
      rewrite He. cbn. rewrite Hh. cbn. auto. }
    destruct H as (H1 & H2 & H3).
    destruct (IH _ H1) as (I1 & I2 & I3). unfold run in *. cbn in *.
    rewrite I2, I3. auto.
Qed.

(** C7.  In editing mode Escape (with or without Shift) returns the
    session to idle, drops the draft in favour of the stored content
    and writes nothing.  A whole session (double-click, any number of
    draft changes, Escape) leaves the stored content and the write log
    as they were before it began; from stored "A" with the draft
    changed to "AB", cancelling leaves stored "A" and no write. *)
Theorem C7_cancel_discards_draft :
  (forall (w : World) (s : State) (shiftKey : bool) (caret : nat),
      hooks w = Some s -> isEditing s = true ->
      let w' := dispatch (KeyDown "Escape" shiftKey caret) w in
      editing w' = false /\ draft w' = Some (content w)
      /\ content w' = content w /\ writes w' = writes w)
  /\ (forall (w : World) (s : State) (vs : list string)
             (shiftKey : bool) (caret : nat),
         hooks w = Some s ->
         let w' := run ([DoubleClick] ++ map Change vs
                        ++ [KeyDown "Escape" shiftKey caret]) w in
         editing w' = false /\ content w' = content w /\ writes w' = writes w)
  /\ (forall (canvas : Size.t) (preview : option (option DOMRect.t))
             (rect : option DOMRect.t) (shiftKey : bool) (caret : nat),
         let w' := run [DoubleClick; Change "AB"; KeyDown "Escape" shiftKey caret]
                       (mount "A" canvas preview rect) in
         content w' = "A" /\ writes w' = [] /\ editing w' = false).
Proof.
  assert (A : forall (w : World) (s : State) (shiftKey : bool) (caret : nat),
             hooks w = Some s -> isEditing s = true ->
             let w' := dispatch (KeyDown "Escape" shiftKey caret) w in
             editing w' = false /\ draft w' = Some (content w)
             /\ content w' = content w /\ writes w' = writes w).
  { intros w s sh caret Hh He. unfold editing, draft. cbn. rewrite Hh, He. cbn.
    rewrite Hh. cbn. auto. }
  split; [ exact A | split ].
  - intros w s vs sh caret Hh w'. subst w'. rewrite !Frames.run_app.
    destruct (handleDoubleClick_seeds w s Hh) as [E1 _].
    assert (E2 : content (run [DoubleClick] w) = content w
                 /\ writes (run [DoubleClick] w) = writes w).
    { cbn. rewrite Hh. cbn. auto. }
    destruct E2 as [E2 E3].
    destruct (run_changes vs (run [DoubleClick] w) E1) as (F1 & F2 & F3).
    set (w2 := run (map Change vs) (run [DoubleClick] w)) in *.
    unfold editing in F1. destruct (hooks w2) as [s2 | ] eqn:H2; [ | discriminate ].
    destruct (A w2 s2 sh caret H2 F1) as (G1 & _ & G3 & G4).
    change (run [KeyDown "Escape" sh caret] w2)
      with (dispatch (KeyDown "Escape" sh caret) w2).
    rewrite G3, G4, F2, F3, E2, E3. auto.
  - intros. cbn. destruct shiftKey; cbn; auto.
Qed.

Lemma C7_escape_on_draft :
  let w' := dispatch (KeyDown "Escape" false 2) Scene.drafting in
  editing w' = false /\ draft w' = Some "A" /\ content w' = "A" /\ writes w' = [].
Proof.
  exact (proj1 C7_cancel_discards_draft Scene.drafting
           (mkState true false (Point.mk 0 0) "AB" false) false 2%nat
           eq_refl eq_refl).
Defined.



End EditFacts.

(** * Animation *)

Module AnimationFacts.

Local Open Scope string_scope.
Local Open Scope list_scope.







Lemma forEach_char_spans (chars : list ascii) (i : nat) (tl : Timeline) :
  spans (forEach_char chars i tl) = spans tl ++ map (fun c => mkSpan c 0%Q) chars.
Proof.
  revert i tl. induction chars as [ | c cs IH]; intros i tl; cbn.
  - rewrite app_nil_r. reflexivity.
  - rewrite IH. cbn. rewrite <- app_assoc. reflexivity.
Qed.

Lemma forEach_char_tweens (chars : list ascii) (i : nat) (tl : Timeline) :
  tweens (forEach_char chars i tl)
  = tweens tl ++ map reveal (seq i (List.length chars)).
Proof.
  revert i tl. induction chars as [ | c cs IH]; intros i tl; cbn.
  - rewrite app_nil_r. reflexivity.
  - rewrite IH. cbn. rewrite <- app_assoc. reflexivity.
Qed.

Lemma length_list_ascii (text : string) :
  List.length (list_ascii_of_string text) = String.length text.
Proof. induction text as [ | c t IH]; cbn; congruence. Qed.

Lemma endTime_reveal (i : nat) :
  (endTime (reveal i) == inject_Z (Z.of_nat i) * (5 # 100) + (5 # 100))%Q.
Proof.
  unfold endTime, totalTime, reveal. cbn [position duration repeat].
  change (inject_Z (Z.of_nat 1)) with 1%Q. lra.
Qed.

Lemma inject_Z_of_nat_S (n : nat) :
  (inject_Z (Z.of_nat (S n)) == inject_Z (Z.of_nat n) + 1)%Q.
Proof. rewrite Nat2Z.inj_succ. unfold Z.succ. rewrite inject_Z_plus. reflexivity. Qed.

Lemma inject_Z_of_nat_nonneg (n : nat) : (0 <= inject_Z (Z.of_nat n))%Q.
Proof. change 0%Q with (inject_Z 0). rewrite <- Zle_Qle. lia. Qed.

(** The last of the staggered units ends last. *)
Lemma totalDuration_reveals (n i : nat) :
  (totalDuration (map reveal (seq i (S n)))
   == inject_Z (Z.of_nat (i + n)) * (5 # 100) + (5 # 100))%Q.
Proof.
  revert i. induction n as [ | n IH]; intros i.
  - cbn [seq map totalDuration]. rewrite Nat.add_0_r.
    rewrite Q.max_l.
    + apply endTime_reveal.
    + rewrite endTime_reveal. pose proof (inject_Z_of_nat_nonneg i). lra.
  - change (seq i (S (S n))) with (i :: seq (S i) (S n)).
    cbn [map totalDuration]. rewrite Q.max_r.
    + rewrite IH. replace (S i + n)%nat with (i + S n)%nat by lia. reflexivity.
    + rewrite IH, endTime_reveal.
      replace (S i + n)%nat with (S (i + n)) by lia.
      rewrite inject_Z_of_nat_S, Nat2Z.inj_add, inject_Z_plus.
      pose proof (inject_Z_of_nat_nonneg n). lra.
Qed.

(** C6.  For content of length N the typewriter preset creates N
    spans and N tweens; the spans carry the characters of the content
    in their order, whatever the characters are, each at opacity 0;
    tween i reveals span i in 0.05 s from offset i * 0.05 s; the
    timeline lasts (N - 1) * 0.05 + 0.05 s; and this timeline is what a
    typewriter trigger on a freshly mounted element starts. *)
Theorem C6_typewriter_units (text : string) :
  let tl := build "typewriter" text in
  let N := String.length text in
  List.length (spans tl) = N /\ List.length (tweens tl) = N
  /\ map textContent (spans tl) = list_ascii_of_string text
  /\ (forall (i : nat) (char : ascii),
         nth_error (list_ascii_of_string text) i = Some char ->
         nth_error (spans tl) i = Some (mkSpan char 0%Q)
         /\ nth_error (tweens tl) i = Some (reveal i))
  /\ (totalDuration (tweens tl)
      == (inject_Z (Z.of_nat N) - 1) * (5 # 100) + (5 # 100))%Q
  /\ (forall (canvas : Size.t) (preview : option (option DOMRect.t))
             (rect : option DOMRect.t),
         timelines (dispatch (Trigger "typewriter") (mount text canvas preview rect))
         = [tl]).
Proof.
  intros tl N.
  assert (Hs : spans tl = map (fun c => mkSpan c 0%Q) (list_ascii_of_string text)).
  { apply (forEach_char_spans (list_ascii_of_string text) 0 gsap_timeline). }
  assert (Ht : tweens tl = map reveal (seq 0 N)).
  { subst N. rewrite <- length_list_ascii.
    apply (forEach_char_tweens (list_ascii_of_string text) 0 gsap_timeline). }
  split; [ | split; [ | split; [ | split; [ | split ] ] ] ].
  - rewrite Hs, length_map. apply length_list_ascii.
  - rewrite Ht, length_map, length_seq. reflexivity.
  - rewrite Hs, map_map. cbn. apply map_id.
  - intros i char Hi. split.
    + rewrite Hs, nth_error_map, Hi. reflexivity.
    + rewrite Ht, nth_error_map.
      assert (Hlt : (i < N)%nat).
      { subst N. rewrite <- length_list_ascii. apply nth_error_Some. congruence. }
      rewrite nth_error_seq. destruct (Nat.ltb_spec i N); [ reflexivity | lia ].
  - rewrite Ht. destruct N as [ | n].
    + vm_compute. reflexivity.
    + rewrite totalDuration_reveals, inject_Z_of_nat_S. cbn [Nat.add]. lra.
  - intros canvas preview rect. reflexivity.
Qed.

(** Three characters, the middle one a space. *)
Example typewriter_a_b :
  let tl := build "typewriter" "a b" in
  map textContent (spans tl) = ["a"; " "; "b"]%char
  /\ map position (tweens tl) = [0 * (5 # 100); 1 * (5 # 100); 2 * (5 # 100)]%Q
  /\ (totalDuration (tweens tl) == 15 # 100)%Q.
Proof. repeat split. Qed.

End AnimationFacts.

(** * More on binary64 order: transitivity and saturation *)

Module JSOrder.

Ltac order_cases :=
  repeat match goal with
         | H : context [Pos.compare_cont Eq ?a ?b] |- _ =>
             change (Pos.compare_cont Eq a b) with (Pos.compare a b) in H
         | |- context [Pos.compare_cont Eq ?a ?b] =>
             change (Pos.compare_cont Eq a b) with (Pos.compare a b)
         end;
  repeat match goal with
         | H : context [Z.compare ?a ?b] |- _ => destruct (Z.compare_spec a b)
         | |- context [Z.compare ?a ?b] => destruct (Z.compare_spec a b)
         | H : context [Pos.compare ?a ?b] |- _ => destruct (Pos.compare_spec a b)
         | |- context [Pos.compare ?a ?b] => destruct (Pos.compare_spec a b)
         end;
  cbn in *; try discriminate; try reflexivity; try (exfalso; lia).

(** Comparison of binary64 values is transitive: below, then not
    above, is below. *)
Lemma SFcompare_lt_le (x y z : spec_float) :
  SFcompare x y = Some Lt ->
  (SFcompare y z = Some Lt \/ SFcompare y z = Some Eq) ->
  SFcompare x z = Some Lt.
Proof.
  intros H1 H2.
  destruct x as [sx | sx | | sx mx ex], y as [sy | sy | | sy my ey],
           z as [sz | sz | | sz mz ez];
    cbn in *; try discriminate; try (destruct H2; discriminate);
    repeat match goal with s : bool |- _ => destruct s end;
    cbn in *; try discriminate; try reflexivity;
    try (destruct H2; discriminate).
  all: destruct H2 as [H2 | H2]; injection H1 as H1; injection H2 as H2;
    f_equal; order_cases.
Qed.


Section Float.

Local Open Scope float_scope.

Lemma ltb_leb_trans (a b c : float) :
  (a <? b) = true -> (b <=? c) = true -> (a <? c) = true.
Proof.
  rewrite !ltb_spec, leb_spec. unfold SFltb, SFleb. intros H1 H2.
  rewrite (SFcompare_lt_le (Prim2SF a) (Prim2SF b) (Prim2SF c)); [ reflexivity | | ].
  - destruct (SFcompare (Prim2SF a) (Prim2SF b)) as [[ | | ] | ]; congruence.
  - destruct (SFcompare (Prim2SF b) (Prim2SF c)) as [[ | | ] | ]; auto; discriminate.
Qed.

Lemma ltb_asym (a b : float) : (a <? b) = true -> (b <? a) = false.
Proof.
  rewrite !ltb_spec. unfold SFltb.
  rewrite (JSFacts.SFcompare_swap (Prim2SF a) (Prim2SF b)).
  destruct (SFcompare (Prim2SF a) (Prim2SF b)) as [[ | | ] | ]; cbn; congruence.
Qed.

Lemma ltb_not_nan (a b : float) :
  (a <? b) = true -> is_nan a = false /\ is_nan b = false.
Proof. intros H. apply JSFacts.leb_not_nan, JSFacts.ltb_leb, H. Qed.

Lemma leb_not_ltb (a b : float) : (a <=? b) = true -> (b <? a) = false.
Proof.
  rewrite ltb_spec, leb_spec. unfold SFltb, SFleb.
  rewrite (JSFacts.SFcompare_swap (Prim2SF a) (Prim2SF b)).
  destruct (SFcompare (Prim2SF a) (Prim2SF b)) as [[ | | ] | ]; cbn; congruence.
Qed.

(** Neither below nor above, among numbers: equal as numbers. *)
Lemma not_ltb_eqb (a b : float) :
  is_nan a = false -> is_nan b = false ->
  (a <? b) = false -> (b <? a) = false -> (a =? b) = true.
Proof.
  intros Ha Hb. apply JSFacts.is_nan_Prim2SF in Ha. apply JSFacts.is_nan_Prim2SF in Hb.
  rewrite !ltb_spec, eqb_spec. unfold SFltb, SFeqb.
  rewrite (JSFacts.SFcompare_swap (Prim2SF a) (Prim2SF b)).
  destruct (SFcompare (Prim2SF a) (Prim2SF b)) as [[ | | ] | ] eqn:E; cbn; try congruence.
  destruct (Prim2SF a), (Prim2SF b); cbn in E; congruence.
Qed.

Lemma eqb_refl (a : float) : is_nan a = false -> (a =? a) = true.
Proof. unfold is_nan. destruct (a =? a); cbn; congruence. Qed.

(** Strictly between the bounds the clamp returns its argument. *)
Lemma clamp_inside (lo hi v : float) :
  (lo <? v) = true -> (v <? hi) = true ->
  JS.Math_max lo (JS.Math_min hi v) = v.
Proof.
  intros H1 H2.
  destruct (ltb_not_nan _ _ H1) as [Hlo Hv]. destruct (ltb_not_nan _ _ H2) as [_ Hhi].
  unfold JS.Math_min. rewrite Hhi, Hv. cbn [orb].
  rewrite (ltb_asym _ _ H2), H2.
  unfold JS.Math_max. rewrite Hlo, Hv. cbn [orb]. rewrite H1. reflexivity.
Qed.

(** Below the lower bound the clamp returns the lower bound. *)
Lemma clamp_below (lo hi v : float) :
  (lo <=? hi) = true -> (v <? lo) = true ->
  JS.Math_max lo (JS.Math_min hi v) = lo.
Proof.
  intros Hb H1.
  destruct (JSFacts.leb_not_nan _ _ Hb) as [Hlo Hhi].
  destruct (ltb_not_nan _ _ H1) as [Hv _].
  pose proof (ltb_leb_trans _ _ _ H1 Hb) as H2.
  unfold JS.Math_min. rewrite Hhi, Hv. cbn [orb].
  rewrite (ltb_asym _ _ H2), H2.
  unfold JS.Math_max. rewrite Hlo, Hv. cbn [orb].
  rewrite (ltb_asym _ _ H1), H1. reflexivity.
Qed.

(** Above the upper bound the clamp returns the upper bound, as a
    number (the two bounds may be zeros of either sign). *)
Lemma clamp_above (lo hi v : float) :
  (lo <=? hi) = true -> (hi <? v) = true ->
  (JS.Math_max lo (JS.Math_min hi v) =? hi) = true.
Proof.
  intros Hb H1.
  destruct (JSFacts.leb_not_nan _ _ Hb) as [Hlo Hhi].
  destruct (ltb_not_nan _ _ H1) as [_ Hv].
  unfold JS.Math_min. rewrite Hhi, Hv. cbn [orb]. rewrite H1.
  unfold JS.Math_max. rewrite Hlo, Hhi. cbn [orb].
  destruct (lo <? hi) eqn:E1; [ apply eqb_refl, Hhi | ].
  rewrite (leb_not_ltb _ _ Hb).
  destruct (get_sign lo); [ apply eqb_refl, Hhi | ].
  apply not_ltb_eqb; try assumption. apply leb_not_ltb, Hb.
Qed.

(** [Math.min] never exceeds its second argument, and is the first one
    when that is smaller. *)
Lemma Math_min_cap (a cap : float) :
  is_nan cap = false ->
  (is_nan a = true -> is_nan (JS.Math_min a cap) = true)
  /\ (is_nan a = false -> (JS.Math_min a cap <=? cap) = true)
  /\ ((a <? cap) = true -> JS.Math_min a cap = a)
  /\ ((cap <? a) = true -> JS.Math_min a cap = cap).
Proof.
  intros Hc. unfold JS.Math_min. repeat split.
  - intros Ha. rewrite Ha. reflexivity.
  - intros Ha. rewrite Ha, Hc. cbn [orb].
    destruct (a <? cap) eqn:E1; [ apply JSFacts.ltb_leb, E1 | ].
    destruct (cap <? a) eqn:E2; [ apply JSFacts.leb_refl, Hc | ].
    destruct (get_sign a); [ | apply JSFacts.leb_refl, Hc ].
    apply JSFacts.not_ltb_leb; assumption.
  - intros H. destruct (ltb_not_nan _ _ H) as [Ha _]. rewrite Ha, Hc, H. reflexivity.
  - intros H. destruct (ltb_not_nan _ _ H) as [_ Ha]. rewrite Ha, Hc. cbn [orb].
    rewrite (ltb_asym _ _ H), H. reflexivity.
Qed.


Lemma div_nan (f d : float) : is_nan f = true -> is_nan (f / d) = true.
Proof.
  intros Hf. destruct (is_nan (f / d)) eqn:E; [ reflexivity | ].
  apply JSFacts.is_nan_Prim2SF in E. rewrite div_spec in E.
  destruct (Prim2SF f) eqn:Ef; try (exfalso; apply E; reflexivity);
    assert (N : is_nan f = false) by (apply JSFacts.is_nan_Prim2SF; congruence);
    congruence.
Qed.

(** A number divided by a finite non-zero number is a number. *)
Lemma div_finite_not_nan (f d : float) (sd : bool) (md : positive) (ed : Z) :
  Prim2SF d = S754_finite sd md ed ->
  is_nan f = false -> is_nan (f / d) = false.
Proof.
  intros Hd Hf. apply JSFacts.is_nan_Prim2SF in Hf. apply JSFacts.is_nan_Prim2SF.
  rewrite div_spec, Hd. unfold SF64div.
  destruct (Prim2SF f) as [s | s | | s m e]; try congruence; try discriminate.
  cbn [SFdiv].
  pose proof (JSFacts.SFdiv_core_binary_nonneg prec emax m md e ed) as Hq.
  destruct (SFdiv_core_binary prec emax (Zpos m) e (Zpos md) ed) as [[mz ez] lz].
  cbn [fst] in Hq.
  destruct (JSFacts.binary_round_aux_signed prec emax mz ez lz Hq) as [k Hk].
  rewrite Hk. destruct k; discriminate.
Qed.

(** On each axis the delivered coordinate is the raw one while that
    lies strictly inside the canvas, the lower edge when it lies below
    it and the upper edge (as a number) when it lies above it. *)
Theorem drag_position_saturates (c : MoveClosure) (rect : DOMRect.t)
        (clientX clientY : float) :
  (0 <=? Size.width (closureCanvas c)) = true ->
  (0 <=? Size.height (closureCanvas c)) = true ->
  let W := Size.width (closureCanvas c) in
  let H := Size.height (closureCanvas c) in
  let rawX := newX c rect clientX in
  let rawY := newY c rect clientY in
  (((- W) / 2 <? rawX) = true -> (rawX <? W / 2) = true ->
   constrainedX c rect clientX = rawX)
  /\ ((rawX <? (- W) / 2) = true -> constrainedX c rect clientX = (- W) / 2)
  /\ ((W / 2 <? rawX) = true -> (constrainedX c rect clientX =? W / 2) = true)
  /\ (((- H) / 2 <? rawY) = true -> (rawY <? H / 2) = true ->
      constrainedY c rect clientY = rawY)
  /\ ((rawY <? (- H) / 2) = true -> constrainedY c rect clientY = (- H) / 2)
  /\ ((H / 2 <? rawY) = true -> (constrainedY c rect clientY =? H / 2) = true).
Proof.
  intros HW HH W H rawX rawY.
  pose proof (JSFacts.half_bounds_ordered _ HW) as BW.
  pose proof (JSFacts.half_bounds_ordered _ HH) as BH.
  repeat split; intros.
  - apply clamp_inside; assumption.
  - apply clamp_below; assumption.
  - apply clamp_above; assumption.
  - apply clamp_inside; assumption.
  - apply clamp_below; assumption.
  - apply clamp_above; assumption.
Qed.

Lemma drag_position_saturates_example :
  let c := mkMove (Point.mk 0 0) Scene.canvas in
  constrainedX c Scene.halfScale 720 = 480
   /\ constrainedX c Scene.halfScale (-5) = -960
   /\ (constrainedX c Scene.halfScale 1000 =? 960) = true.
Proof.
  destruct (drag_position_saturates (mkMove (Point.mk 0 0) Scene.canvas)
              Scene.halfScale 720 0 eq_refl eq_refl) as (A & _).
  destruct (drag_position_saturates (mkMove (Point.mk 0 0) Scene.canvas)
              Scene.halfScale (-5) 0 eq_refl eq_refl) as (_ & B & _).
  destruct (drag_position_saturates (mkMove (Point.mk 0 0) Scene.canvas)
              Scene.halfScale 1000 0 eq_refl eq_refl) as (_ & _ & C & _).
  split; [ exact (A eq_refl eq_refl) | split; [ exact (B eq_refl) | exact (C eq_refl) ] ].
Defined.

(** The preview of a generated style: for a numeric font size the
    size shown never exceeds the cap (24 in the modal, 14 in the
    properties panel) and is the divided size while that is smaller;
    a NaN font size shows as NaN. *)
Theorem preview_font_size_capped (fontSize : float) :
  (is_nan fontSize = false ->
   (previewFontSize 2 24 fontSize <=? 24) = true
   /\ (previewFontSize 3 14 fontSize <=? 14) = true)
  /\ ((fontSize / 2 <? 24) = true ->
      previewFontSize 2 24 fontSize = (fontSize / 2))
  /\ ((fontSize / 3 <? 14) = true ->
      previewFontSize 3 14 fontSize = (fontSize / 3))
  /\ ((24 <? fontSize / 2) = true -> previewFontSize 2 24 fontSize = 24)
  /\ ((14 <? fontSize / 3) = true -> previewFontSize 3 14 fontSize = 14)
  /\ (is_nan fontSize = true ->
      is_nan (previewFontSize 2 24 fontSize) = true
      /\ is_nan (previewFontSize 3 14 fontSize) = true).
Proof.
  unfold previewFontSize.
  destruct (Math_min_cap (fontSize / 2) 24 eq_refl) as (A1 & A2 & A3 & A4).
  destruct (Math_min_cap (fontSize / 3) 14 eq_refl) as (B1 & B2 & B3 & B4).
  repeat split; try assumption.
  - apply A2. eapply div_finite_not_nan; [ reflexivity | assumption ].
  - apply B2. eapply div_finite_not_nan; [ reflexivity | assumption ].
  - apply A1, div_nan. assumption.
  - apply B1, div_nan. assumption.
Qed.

End Float.

End JSOrder.

(** * The overlay element over whole histories *)

Module OverlayFacts.

Local Open Scope string_scope.
Local Open Scope list_scope.

(** *** Props never change *)

Lemma ups_props (ids : list nat) (w : World) :
  let w' := fold_left (fun w' id => handleMouseUp id w') ids w in
  externalPreviewRef w' = externalPreviewRef w
  /\ canvasSize w' = canvasSize w /\ elementRect w' = elementRect w
  /\ (ids <> [] -> dragging w' = false).
Proof.
  revert w. induction ids as [ | id ids IH]; intros w; cbn.
  - split; [ reflexivity | split; [ reflexivity | split; [ reflexivity | congruence ] ] ].
  - destruct (IH (handleMouseUp id w)) as (H1 & H2 & H3 & H4).
    rewrite H1, H2, H3.
    split; [ reflexivity | split; [ reflexivity | split; [ reflexivity | ] ] ].
    intros _. destruct ids as [ | id' ids'].
    + cbn. unfold dragging. cbn. destruct (hooks w); reflexivity.
    + apply H4. discriminate.
Qed.

Lemma dispatch_props (e : Event) (w : World) :
  externalPreviewRef (dispatch e w) = externalPreviewRef w
  /\ canvasSize (dispatch e w) = canvasSize w
  /\ elementRect (dispatch e w) = elementRect w.
Proof.
  destruct e; cbn.
  - destruct (hooks w); auto.
  - destruct (hooks w) as [s | ]; auto.
    unfold handleMouseDown. destruct (isEditing s); auto.
    destruct (elementRect w) eqn:E; cbn; auto.
  - apply Frames.moves_props.
  - destruct (ups_props (mouseupListeners w) w) as (H1 & H2 & H3 & _). auto.
  - destruct (hooks w) as [s | ]; auto. destruct (isEditing s); auto.
  - destruct (hooks w) as [s | ]; auto. destruct (isEditing s); auto.
    unfold handleKeyDown.
    destruct (String.eqb key "Enter" && negb shiftKey);
      destruct (String.eqb key "Escape"); cbn;
      try (destruct (String.eqb key "Enter")); auto.
  - destruct (hooks w) as [s | ]; auto. destruct (isEditing s); auto.
  - destruct (hooks w) as [s | ]; auto.
    unfold playAnimation. destruct (negb (gsapRef s) || isAnimating s); auto.
  - destruct (hooks w) as [s | ]; auto.
    destruct (Frames.triggers_frame s animations w)
      as (_ & _ & H3 & H4 & H5 & _). auto.
  - unfold onComplete. destruct (timelines w); auto.
  - auto.
Qed.

(** Only move signals reach [onPositionUpdate]. *)
Lemma dispatch_positions (e : Event) (w : World) :
  (forall x y, e <> MouseMove x y) ->
  positionUpdates (dispatch e w) = positionUpdates w.
Proof.
  intros Hm. destruct e; cbn; try (exfalso; eapply Hm; reflexivity).
  - destruct (hooks w); auto.
  - destruct (hooks w) as [s | ]; auto.
    unfold handleMouseDown. destruct (isEditing s); auto.
    destruct (elementRect w) eqn:E; cbn; auto.
  - apply (Frames.ups_frame (mouseupListeners w) w).
  - destruct (hooks w) as [s | ]; auto. destruct (isEditing s); auto.
  - destruct (hooks w) as [s | ]; auto. destruct (isEditing s); auto.
    unfold handleKeyDown.
    destruct (String.eqb key "Enter" && negb shiftKey);
      destruct (String.eqb key "Escape"); cbn;
      try (destruct (String.eqb key "Enter")); auto.
  - destruct (hooks w) as [s | ]; auto. destruct (isEditing s); auto.
  - destruct (hooks w) as [s | ]; auto.
    unfold playAnimation. destruct (negb (gsapRef s) || isAnimating s); auto.
  - destruct (hooks w) as [s | ]; auto.
    apply (Frames.triggers_frame s animations w).
  - unfold onComplete. destruct (timelines w); auto.
  - auto.
Qed.

(** Without [externalPreviewRef], or while its [current] is null, no
    history of events ever calls [onPositionUpdate]: the component's
    own [previewRef] is attached to nothing. *)
Theorem no_preview_no_position_update
        (content0 : string) (canvas : Size.t) (rect : option DOMRect.t)
        (es : list Event) :
  positionUpdates (run es (mount content0 canvas None rect)) = []
  /\ positionUpdates (run es (mount content0 canvas (Some None) rect)) = [].
Proof.
  assert (A : forall es w, currentPreviewRef w = None ->
                           positionUpdates (run es w) = positionUpdates w).
  { clear. induction es as [ | e es IH]; intros w Hp; [ reflexivity | ].
    change (run (e :: es) w) with (run es (dispatch e w)).
    rewrite IH.
    - destruct e; try (apply dispatch_positions; intros; discriminate).
      cbn. rewrite Frames.moves_no_preview; [ reflexivity | exact Hp ].
    - unfold currentPreviewRef in *.
      destruct (dispatch_props e w) as (H & _). rewrite H. exact Hp. }
  split; apply A; reflexivity.
Qed.


(** *** The dragging flag and the document's listeners *)

Lemma dispatch_flag_other (e : Event) (w : World) :
  (forall x y, e <> MouseDown x y) -> e <> MouseUp -> e <> Unmount ->
  dragging (dispatch e w) = dragging w
  /\ mousemoveListeners (dispatch e w) = mousemoveListeners w.
Proof.
  intros Hd Hu Hn. unfold dragging.
  destruct e; try congruence; try (exfalso; eapply Hd; reflexivity); cbn.
  - destruct (hooks w) as [s | ] eqn:Hh; [ | rewrite Hh; auto ].
    cbn. rewrite Hh. cbn. auto.
  - destruct (Frames.moves_frame (mousemoveListeners w) clientX clientY w)
      as (H1 & _ & _ & _ & H5 & _). rewrite H1, H5. auto.
  - destruct (hooks w) as [s | ] eqn:Hh; [ | rewrite Hh; auto ].
    destruct (isEditing s); cbn; rewrite Hh; auto.
  - destruct (hooks w) as [s | ] eqn:Hh; [ | rewrite Hh; auto ].
    destruct (isEditing s); [ | rewrite Hh; auto ].
    unfold handleKeyDown.
    destruct (String.eqb key "Enter" && negb shiftKey);
      destruct (String.eqb key "Escape"); cbn;
      try (destruct (String.eqb key "Enter")); cbn; rewrite Hh; auto.
  - destruct (hooks w) as [s | ] eqn:Hh; [ | rewrite Hh; auto ].
    destruct (isEditing s); cbn; rewrite Hh; auto.
  - destruct (hooks w) as [s | ] eqn:Hh; [ | rewrite Hh; auto ].
    unfold playAnimation. destruct (negb (gsapRef s) || isAnimating s); cbn;
      rewrite Hh; auto.
  - destruct (hooks w) as [s | ] eqn:Hh; [ | rewrite Hh; auto ].
    destruct (Frames.triggers_frame s animations w)
      as (_ & _ & _ & _ & _ & _ & _ & H8 & _ & _ & _ & H12 & _).
    unfold dragging in H12. rewrite Hh in H12. auto.
  - unfold onComplete. destruct (timelines w); cbn; destruct (hooks w); auto.
Qed.

Lemma dispatch_flag_tracks (e : Event) (w : World) :
  flag_tracks_listeners w -> flag_tracks_listeners (dispatch e w).
Proof.
  intros [Hp Hf]. split; [ apply Listeners.dispatch_paired, Hp | ].
  intros Hm.
  assert (Hw : hooks w <> None).
  { intros Hn. apply Hm. apply Frames.dispatch_unmounted, Hn. }
  specialize (Hf Hw).
  destruct e eqn:Ee;
    try (assert (Hn : (forall x y, e <> MouseDown x y) /\ e <> MouseUp /\ e <> Unmount)
           by (subst e; repeat split; intros; discriminate);
         destruct Hn as (N1 & N2 & N3); rewrite <- Ee;
         destruct (dispatch_flag_other e w N1 N2 N3) as [D L];
         unfold listening; rewrite D, L; exact Hf).
  - (* MouseDown *)
    cbn in *. destruct (hooks w) as [s | ] eqn:Hh; [ | congruence ].
    unfold handleMouseDown in *. destruct (isEditing s); [ exact Hf | ].
    destruct (elementRect w); [ | exact Hf ].
    unfold dragging, listening. cbn. rewrite Hh. cbn.
    destruct (mousemoveListeners w); reflexivity.
  - (* MouseUp *)
    destruct (Listeners.release_removes_listeners w Hp) as (E1 & _ & _).
    unfold listening. rewrite E1.
    destruct (mouseupListeners w) as [ | id ids] eqn:El.
    + cbn. rewrite El. cbn. rewrite Hf. unfold listening.
      unfold paired in Hp. rewrite El in Hp.
      destruct (mousemoveListeners w); [ reflexivity | discriminate ].
    + cbn. rewrite El.
      apply (ups_props (id :: ids) w). discriminate.
  - (* Unmount *)
    cbn in Hm. congruence.
Qed.

Lemma run_flag_tracks (es : list Event) (w : World) :
  flag_tracks_listeners w -> flag_tracks_listeners (run es w).
Proof.
  revert w. induction es as [ | e es IH]; intros w Inv; cbn; [ exact Inv | ].
  apply IH, dispatch_flag_tracks, Inv.
Qed.

(** While the component is mounted the dragging flag (the
    [cursor-grabbing] class) is up exactly while the drag's listeners
    are on the document, after any history of events. *)
Theorem dragging_flag_tracks_listeners
        (content0 : string) (canvas : Size.t)
        (preview : option (option DOMRect.t)) (rect : option DOMRect.t)
        (es : list Event) :
  let w := run es (mount content0 canvas preview rect) in
  hooks w <> None -> dragging w = listening w.
Proof.
  intros w. apply (run_flag_tracks es). split; [ reflexivity | reflexivity ].
Qed.

Lemma dragging_flag_while_dragging :
  let w := run [MouseDown 480 270; MouseMove 720 405] Scene.preview in
  dragging w = true /\ listening w = true.
Proof.
  pose proof (dragging_flag_tracks_listeners "A" Scene.canvas
                (Some (Some Scene.halfScale)) (Some Scene.centred)
                [MouseDown 480 270; MouseMove 720 405]
                ltac:(discriminate)) as H.
  split; [ reflexivity | exact (eq_trans (eq_sym H) eq_refl) ].
Defined.

(** *** The store *)

(** What one event writes: nothing, unless it is a commit signal in
    editing mode, which writes the draft once. *)
Lemma dispatch_writes (e : Event) (w : World) :
  writes (dispatch e w)
  = writes w ++ (if editing w && is_commit e
                 then match hooks w with Some s => [editContent s] | None => [] end
                 else [])
  /\ content (dispatch e w)
     = (if editing w && is_commit e
        then match hooks w with Some s => editContent s | None => content w end
        else content w).
Proof.
  unfold editing. destruct e; cbn.
  - destruct (hooks w) as [s | ]; rewrite ?andb_false_r, app_nil_r; auto.
  - rewrite ?andb_false_r, app_nil_r.
    destruct (hooks w) as [s | ]; auto.
    unfold handleMouseDown. destruct (isEditing s); auto.
    destruct (elementRect w) eqn:E; cbn; auto.
  - rewrite ?andb_false_r, app_nil_r.
    destruct (Frames.moves_frame (mousemoveListeners w) clientX clientY w)
      as (_ & _ & H3 & H4 & _). auto.
  - rewrite ?andb_false_r, app_nil_r.
    destruct (Frames.ups_frame (mouseupListeners w) w)
      as (_ & _ & _ & _ & H5 & H6 & _). auto.
  - rewrite ?andb_false_r, app_nil_r.
    destruct (hooks w) as [s | ]; auto. destruct (isEditing s); auto.
  - destruct (hooks w) as [s | ]; [ | rewrite app_nil_r; auto ].
    destruct (isEditing s); cbn; [ | rewrite app_nil_r; auto ].
    unfold handleKeyDown.
    destruct (String.eqb key "Enter" && negb shiftKey) eqn:E1.
    + apply andb_prop in E1. destruct E1 as [E1 _].
      apply String.eqb_eq in E1. subst key. cbn. auto.
    + destruct (String.eqb key "Escape"); cbn;
        try (destruct (String.eqb key "Enter")); cbn; rewrite app_nil_r; auto.
  - destruct (hooks w) as [s | ]; [ | rewrite app_nil_r; auto ].
    destruct (isEditing s); cbn; [ | rewrite app_nil_r ]; auto.
  - rewrite ?andb_false_r, app_nil_r.
    destruct (hooks w) as [s | ]; auto.
    unfold playAnimation. destruct (negb (gsapRef s) || isAnimating s); auto.
  - rewrite ?andb_false_r, app_nil_r.
    destruct (hooks w) as [s | ]; auto.
    destruct (Frames.triggers_frame s animations w) as (H1 & H2 & _). auto.
  - rewrite ?andb_false_r, app_nil_r.
    unfold onComplete. destruct (timelines w); auto.
  - rewrite ?andb_false_r, app_nil_r. auto.
Qed.

(** The component writes to the store only on a commit signal in
    editing mode, and then exactly the draft: a pointer-down, move or
    release, a double-click, typing, Escape, an animation trigger or
    completion and the component's removal write nothing.  After any
    history the number of store writes is at most the number of commit
    signals in it. *)
Theorem store_written_only_by_commit :
  (forall (e : Event) (w : World),
      writes (dispatch e w)
      = writes w ++ (if editing w && is_commit e
                     then match hooks w with Some s => [editContent s] | None => [] end
                     else [])
      /\ content (dispatch e w)
         = (if editing w && is_commit e
            then match hooks w with Some s => editContent s | None => content w end
            else content w))
  /\ (forall (content0 : string) (canvas : Size.t)
             (preview : option (option DOMRect.t)) (rect : option DOMRect.t)
             (es : list Event),
         (List.length (writes (run es (mount content0 canvas preview rect)))
          <= commits es)%nat).
Proof.
  split; [ exact dispatch_writes | ].
  intros c0 cv pv r es.
  assert (A : forall es w,
             (List.length (writes (run es w)) <= List.length (writes w) + commits es)%nat).
  { clear. induction es as [ | e es IH]; intros w; [ cbn; lia | ].
    change (run (e :: es) w) with (run es (dispatch e w)).
    specialize (IH (dispatch e w)).
    destruct (dispatch_writes e w) as [Hw _]. rewrite Hw, length_app in IH.
    unfold commits in *. cbn [filter].
    destruct (is_commit e); cbn [List.length];
      destruct (editing w); cbn [andb] in IH;
      try destruct (hooks w); cbn [List.length] in IH; lia. }
  specialize (A es (mount c0 cv pv r)). cbn in A. exact A.
Qed.

Lemma last_default {A : Type} (l : list A) (a d d' : A) :
  last (a :: l) d = last (a :: l) d'.
Proof.
  revert a. induction l as [ | b l IH]; intros a; [ reflexivity | ].
  change (last (b :: l) d = last (b :: l) d'). apply IH.
Qed.

Lemma last_cons {A : Type} (a : A) (l : list A) (d : A) :
  last (a :: l) d = last l a.
Proof.
  destruct l as [ | b l]; [ reflexivity | ].
  change (last (b :: l) d = last (b :: l) a). apply last_default.
Qed.

(** An edit session from start to commit: double-click, any number of
    changes to the draft, a commit signal.  The store then holds the
    last value typed (the stored content itself when nothing was typed:
    the commit writes all the same), after exactly one write, the
    session is idle, and a new double-click shows what was stored. *)
Theorem edit_session_round_trip
        (w : World) (s : State) (vs : list string) (e : Event) :
  hooks w = Some s -> is_commit e = true ->
  let stored := last vs (content w) in
  let w' := run ([DoubleClick] ++ map Change vs ++ [e]) w in
  content w' = stored
  /\ writes w' = writes w ++ [stored]
  /\ editing w' = false
  /\ draft (dispatch DoubleClick w') = Some stored.
Proof.
  intros Hh Hc stored w'.
  assert (A : forall vs w0 s0,
             hooks w0 = Some s0 -> isEditing s0 = true ->
             exists s1, hooks (run (map Change vs) w0) = Some s1
                        /\ isEditing s1 = true
                        /\ editContent s1 = last vs (editContent s0)
                        /\ content (run (map Change vs) w0) = content w0
                        /\ writes (run (map Change vs) w0) = writes w0).
  { clear. induction vs as [ | v vs IH]; intros w0 s0 Hh He.
    - exists s0. cbn. auto.
    - change (run (map Change (v :: vs)) w0)
        with (run (map Change vs) (dispatch (Change v) w0)).
      destruct (IH (dispatch (Change v) w0)
                  (mkState true (isDragging s0) (dragOffset s0) v (isAnimating s0)))
        as (s1 & H1 & H2 & H3 & H4 & H5).
      + cbn. rewrite Hh, He. cbn. rewrite Hh. cbn. rewrite He. reflexivity.
      + reflexivity.
      + exists s1. repeat split; try assumption.
        * rewrite H3. cbn [editContent]. symmetry. apply last_cons.
        * rewrite H4. cbn. rewrite Hh, He. reflexivity.
        * rewrite H5. cbn. rewrite Hh, He. reflexivity. }
  subst w'. rewrite !Frames.run_app.
  set (w1 := run [DoubleClick] w).
  assert (H1 : hooks w1 = Some (mkState true (isDragging s) (dragOffset s)
                                        (content w) (isAnimating s))).
  { subst w1. cbn. rewrite Hh. cbn. rewrite Hh. reflexivity. }
  destruct (A vs w1 _ H1 eq_refl) as (s2 & G1 & G2 & G3 & G4 & G5).
  set (w2 := run (map Change vs) w1) in *.
  change (run [e] w2) with (dispatch e w2).
  rewrite (EditFacts.dispatch_commit w2 s2 e G1 G2 Hc).
  cbn [editContent] in G3. fold stored in G3.
  assert (E4 : content w1 = content w /\ writes w1 = writes w).
  { subst w1. cbn. rewrite Hh. auto. }
  destruct E4 as [E4 E5].
  unfold handleTextSave, editing, draft. cbn. rewrite G1. cbn.
  rewrite G1. cbn. rewrite G3, G5, E5. auto.
Qed.

Lemma edit_session_untouched_commit :
  let w' := run [DoubleClick; Blur] Scene.preview in
  content w' = "A" /\ writes w' = ["A"] /\ editing w' = false
  /\ draft (dispatch DoubleClick w') = Some "A".
Proof.
  exact (edit_session_round_trip Scene.preview
           (mkState false false (Point.mk 0 0) "A" false) [] Blur
           eq_refl eq_refl).
Defined.


(** *** Several gestures at once *)

Lemma presses_add_listeners (ds : list (float * float)) (w : World)
      (s : State) (er : DOMRect.t) :
  hooks w = Some s -> isEditing s = false -> elementRect w = Some er ->
  let w' := run (presses ds) w in
  (exists s', hooks w' = Some s' /\ isEditing s' = false)
  /\ externalPreviewRef w' = externalPreviewRef w
  /\ positionUpdates w' = positionUpdates w
  /\ List.length (mousemoveListeners w')
     = (List.length (mousemoveListeners w) + List.length ds)%nat.
Proof.
  revert w s. induction ds as [ | d ds IH]; intros w s Hh He Hr.
  - cbn. repeat split; eauto.
  - change (run (presses (d :: ds)) w)
      with (run (presses ds) (dispatch (MouseDown (fst d) (snd d)) w)).
    rewrite (DragFacts.handleMouseDown_starts w s er (fst d) (snd d) Hh He Hr).
    set (w1 := addEventListeners _ _).
    destruct (IH w1 (mkState (isEditing s) true
                             (Point.mk (fst d - (DOMRect.left er + DOMRect.width er / 2))
                                       (snd d - (DOMRect.top er + DOMRect.height er / 2)))
                             (editContent s) (isAnimating s)))
      as (H1 & H2 & H3 & H4).
    + subst w1. cbn. rewrite Hh. reflexivity.
    + exact He.
    + subst w1. cbn. exact Hr.
    + cbv zeta. rewrite H2, H3, H4. subst w1. cbn. rewrite length_app. cbn.
      repeat split; try assumption. lia.
Qed.

(** Pointer-downs that no release has answered each leave a gesture
    pending: with n of them, every move signal delivers n positions
    (one per gesture, each with its own grab offset). *)
Theorem pending_gestures_multiply_updates
        (w : World) (s : State) (er rect : DOMRect.t)
        (ds : list (float * float)) (clientX clientY : float) :
  hooks w = Some s -> isEditing s = false ->
  elementRect w = Some er -> currentPreviewRef w = Some rect ->
  mousemoveListeners w = [] ->
  List.length (positionUpdates (run (presses ds ++ [MouseMove clientX clientY]) w))
  = (List.length (positionUpdates w) + List.length ds)%nat.
Proof.
  intros Hh He Hr Hp Hl. rewrite Frames.run_app.
  destruct (presses_add_listeners ds w s er Hh He Hr) as (_ & H2 & H3 & H4).
  set (w1 := run (presses ds) w) in *.
  change (run [MouseMove clientX clientY] w1)
    with (fold_left (fun w' l => handleMouseMove (snd l) clientX clientY w')
                    (mousemoveListeners w1) w1).
  rewrite (Frames.moves_positions _ clientX clientY w1 rect).
  - rewrite length_app, length_map, H3, H4, Hl. reflexivity.
  - unfold currentPreviewRef in *. rewrite H2. exact Hp.
Qed.

Lemma two_pending_gestures :
  List.length
    (positionUpdates (run (presses [(480, 270); (500, 280)] ++ [MouseMove 720 405])
                          Scene.preview))%float
  = 2%nat.
Proof.
  exact (pending_gestures_multiply_updates Scene.preview
           (mkState false false (Point.mk 0 0) "A" false)
           Scene.centred Scene.halfScale [(480, 270); (500, 280)]%float 720 405
           eq_refl eq_refl eq_refl eq_refl eq_refl).
Defined.

End OverlayFacts.

(** * Presets *)

Module PresetFacts.

Local Open Scope string_scope.
Local Open Scope list_scope.

Lemma build_unknown (animation text : string) :
  knownAnimation animation = false -> build animation text = mkTimeline [] [].
Proof.
  unfold knownAnimation, build. intros H.
  repeat (apply orb_false_elim in H; destruct H as [H ?]).
  rewrite H.
  repeat match goal with E : String.eqb _ _ = false |- _ => rewrite E; clear E end.
  reflexivity.
Qed.

(** A name the [switch] does not know is not refused.  Called by a
    closure that sees the display node rendered and the flag down, it
    raises the flag and starts a timeline that holds no tween and no
    span and lasts no time; when nothing else was pending, the
    completion of that timeline leaves the component as it was before
    the call. *)
Theorem unknown_animation_plays_nothing
        (w : World) (s : State) (animation : string) :
  hooks w = Some s -> isEditing s = false -> isAnimating s = false ->
  knownAnimation animation = false ->
  let w' := dispatch (Trigger animation) w in
  running w' = true
  /\ timelines w' = timelines w ++ [mkTimeline [] []]
  /\ (totalDuration (tweens (build animation (content w))) == 0)%Q
  /\ (timelines w = [] -> dispatch Complete w' = w).
Proof.
  intros Hh He Ha Hk w'.
  assert (E : w' = set_timelines (timelines w ++ [mkTimeline [] []])
                                 (setIsAnimating true w)).
  { subst w'. cbn. rewrite Hh. unfold playAnimation, gsapRef.
    rewrite He, Ha. cbn. rewrite (build_unknown _ _ Hk). reflexivity. }
  rewrite E, (build_unknown _ _ Hk). clear E w'.
  destruct w as [c ws cs pr er pu h nc mm mu tl]; cbn in Hh; subst h.
  destruct s as [ed dr off ec an]; cbn in He, Ha; subst ed an.
  cbn. split; [ reflexivity | split; [ reflexivity | split; [ reflexivity | ] ] ].
  intros ->. reflexivity.
Qed.

Lemma unknown_animation_example :
  let w' := dispatch (Trigger "spin") Scene.preview in
  running w' = true /\ timelines w' = [mkTimeline [] []]
  /\ dispatch Complete w' = Scene.preview.
Proof.
  destruct (unknown_animation_plays_nothing Scene.preview
              (mkState false false (Point.mk 0 0) "A" false) "spin"
              eq_refl eq_refl eq_refl eq_refl) as (H1 & H2 & _ & H4).
  split; [ exact H1 | split; [ exact H2 | exact (H4 eq_refl) ] ].
Defined.

End PresetFacts.

(** * applyStyle *)

Module PanelFacts.

Local Open Scope string_scope.
Local Open Scope list_scope.

(** *** Objects *)

Lemma getProp_setProp_same (o : Obj) (k : string) (v : JSValue) :
  getProp (setProp o k v) k = v.
Proof.
  induction o as [ | [k' v'] o IH]; cbn.
  - rewrite String.eqb_refl. reflexivity.
  - destruct (String.eqb k' k) eqn:E; cbn.
    + rewrite String.eqb_refl. reflexivity.
    + rewrite E. exact IH.
Qed.

Lemma getProp_setProp_other (o : Obj) (k k' : string) (v : JSValue) :
  String.eqb k k' = false -> getProp (setProp o k v) k' = getProp o k'.
Proof.
  intros Hk. induction o as [ | [k0 v0] o IH]; cbn.
  - rewrite Hk. reflexivity.
  - destruct (String.eqb k0 k) eqn:E; cbn.
    + apply String.eqb_eq in E. subst k0. rewrite Hk. reflexivity.
    + destruct (String.eqb k0 k'); [ reflexivity | exact IH ].
Qed.

Lemma in_setProp (o : Obj) (k k' : string) (v v' : JSValue) :
  In (k', v') (setProp o k v) -> (k', v') = (k, v) \/ In (k', v') o.
Proof.
  induction o as [ | [k0 v0] o IH]; cbn.
  - intros [H | []]. left. congruence.
  - destruct (String.eqb k0 k); cbn.
    + intros [H | H]; [ left; congruence | right; right; exact H ].
    + intros [H | H]; [ right; left; exact H | ].
      destruct (IH H) as [H' | H']; [ left; exact H' | right; right; exact H' ].
Qed.

Lemma getProp_copyIfTruthy (k k' : string) (style updates : Obj) :
  getProp (copyIfTruthy k style updates) k'
  = if String.eqb k k' && ToBoolean (getProp style k)
    then getProp style k
    else getProp updates k'.
Proof.
  unfold copyIfTruthy. destruct (ToBoolean (getProp style k)).
  - destruct (String.eqb k k') eqn:E; cbn.
    + apply String.eqb_eq in E. subst k'. apply getProp_setProp_same.
    + apply getProp_setProp_other, E.
  - rewrite andb_false_r. reflexivity.
Qed.

Lemma in_copyIfTruthy (k k' : string) (v' : JSValue) (style updates : Obj) :
  In (k', v') (copyIfTruthy k style updates) ->
  (k' = k /\ v' = getProp style k /\ ToBoolean (getProp style k) = true)
  \/ In (k', v') updates.
Proof.
  unfold copyIfTruthy. destruct (ToBoolean (getProp style k)) eqn:E; [ | auto ].
  intros H. destruct (in_setProp _ _ _ _ _ H) as [H' | H']; [ left | right; exact H' ].
  injection H' as -> ->. auto.
Qed.

(** [applyStyle] forwards the nine attributes it names and nothing
    else.  Read back from the [updates] object, an attribute of the
    eight tested with [if (style.k)] carries the style's own value when
    that is truthy and is absent otherwise (so 0, NaN, the empty string,
    null and false are dropped); [opacity] carries the style's value
    whenever that is not undefined (so 0 and null are forwarded); every
    other property of the style ([textShadow], [name], [description],
    ...) is absent.  Every property of [updates] is one of the nine,
    with the style's value. *)
Theorem applyStyle_forwards_whitelist (style : Obj) :
  (forall k : string,
      getProp (applyStyle_updates style) k
      = if existsb (fun key => String.eqb key k) truthyKeys
        then (if ToBoolean (getProp style k) then getProp style k else undefined)
        else if String.eqb "opacity" k then getProp style "opacity"
        else undefined)
  /\ (forall (k : string) (v : JSValue),
         In (k, v) (applyStyle_updates style) ->
         In k (truthyKeys ++ ["opacity"]) /\ v = getProp style k
         /\ isDefined v = true)
  /\ getProp (applyStyle_updates style) "textShadow" = undefined.
Proof.
  split; [ | split ].
  - intros k. unfold applyStyle_updates.
    set (u8 := copyIfTruthy "textDecoration" style _).
    assert (U : getProp u8 k
                = if existsb (fun key => String.eqb key k) truthyKeys
                  then (if ToBoolean (getProp style k) then getProp style k
                        else undefined)
                  else undefined).
    { subst u8. rewrite !getProp_copyIfTruthy. cbn [getProp existsb truthyKeys].
      repeat match goal with
             | |- context [String.eqb ?lit k] =>
                 let E := fresh "E" in
                 destruct (String.eqb lit k) eqn:E;
                 [ apply String.eqb_eq in E; subst k; cbn;
                   match goal with
                   | |- context [ToBoolean ?v] => destruct (ToBoolean v); reflexivity
                   end
                 | cbn [andb orb] ]
             end.
      reflexivity. }
    destruct (isDefined (getProp style "opacity")) eqn:D.
    + destruct (String.eqb "opacity" k) eqn:E.
      * apply String.eqb_eq in E. subst k. rewrite getProp_setProp_same. reflexivity.
      * rewrite (getProp_setProp_other _ _ _ _ E), U.
        destruct (existsb (fun key => String.eqb key k) truthyKeys); reflexivity.
    + rewrite U.
      destruct (existsb (fun key => String.eqb key k) truthyKeys); [ reflexivity | ].
      destruct (String.eqb "opacity" k); [ | reflexivity ].
      destruct (getProp style "opacity"); try discriminate. reflexivity.
  - intros k v Hin. unfold applyStyle_updates in Hin.
    assert (T : forall key, ToBoolean (getProp style key) = true ->
                            isDefined (getProp style key) = true).
    { intros key. destruct (getProp style key); cbn; congruence. }
    destruct (isDefined (getProp style "opacity")) eqn:D.
    + apply in_setProp in Hin. destruct Hin as [Hin | Hin].
      * injection Hin as -> ->. cbn. auto 12.
      * repeat (apply in_copyIfTruthy in Hin;
                destruct Hin as [(-> & -> & Ht) | Hin];
                [ cbn; split; [ tauto | split; [ reflexivity | apply T, Ht ] ] | ]).
        destruct Hin.
    + repeat (apply in_copyIfTruthy in Hin;
              destruct Hin as [(-> & -> & Ht) | Hin];
              [ cbn; split; [ tauto | split; [ reflexivity | apply T, Ht ] ] | ]).
      destruct Hin.
  - unfold applyStyle_updates.
    destruct (isDefined (getProp style "opacity")).
    + rewrite getProp_setProp_other by reflexivity.
      rewrite !getProp_copyIfTruthy. reflexivity.
    + rewrite !getProp_copyIfTruthy. reflexivity.
Qed.

(** The quick styles "Bold Title" and "Neon Glow" carry a text shadow;
    what reaches the store has none. *)
Example quick_styles_lose_text_shadow :
  Forall (fun preset =>
            getProp (applyStyle_updates (snd preset)) "textShadow" = undefined
            /\ getProp (applyStyle_updates (snd preset)) "fontSize"
               = getProp (snd preset) "fontSize")
         quickStyles
  /\ map (fun preset => isDefined (getProp (snd preset) "textShadow")) quickStyles
     = [true; false; true].
Proof. split; [ repeat constructor | reflexivity ]. Qed.

End PanelFacts.

(** * The reply's bracketed part *)

Module ReplyFacts.

Local Open Scope string_scope.

Lemma fromFirstOpen_spec (text suffix : string) :
  fromFirstOpen text = Some suffix <->
  exists pre rest,
    text = pre ++ String "["%char rest /\ occurs "["%char pre = false
    /\ suffix = String "["%char rest.
Proof.
  split.
  - revert suffix. induction text as [ | c t IH]; intros suffix H; cbn in H.
    + discriminate.
    + destruct (Ascii.eqb c "[") eqn:E.
      * apply Ascii.eqb_eq in E. subst c. injection H as <-.
        exists "", t. auto.
      * destruct (IH _ H) as (pre & rest & -> & Ho & ->).
        exists (String c pre), rest. cbn. rewrite E, Ho. auto.
  - intros (pre & rest & -> & Ho & ->).
    induction pre as [ | c pre IH]; cbn.
    + reflexivity.
    + cbn in Ho. apply orb_false_elim in Ho. destruct Ho as [Hc Ho].
      rewrite Hc. apply IH, Ho.
Qed.

Lemma throughLastClose_none (text : string) :
  throughLastClose text = None <-> occurs "]"%char text = false.
Proof.
  induction text as [ | c t IH]; cbn.
  - tauto.
  - destruct (throughLastClose t) as [r | ].
    + split; [ discriminate | ].
      intros H. apply orb_false_elim in H. destruct H as [_ H].
      apply IH in H. discriminate.
    + destruct (Ascii.eqb c "]"); cbn.
      * split; discriminate.
      * split; [ intros _; apply IH; reflexivity | reflexivity ].
Qed.

Lemma throughLastClose_spec (text prefix : string) :
  throughLastClose text = Some prefix <->
  exists body post,
    text = body ++ String "]"%char post /\ occurs "]"%char post = false
    /\ prefix = body ++ "]".
Proof.
  split.
  - revert prefix. induction text as [ | c t IH]; intros prefix H; cbn in H.
    + discriminate.
    + destruct (throughLastClose t) as [r | ] eqn:E.
      * injection H as <-.
        destruct (IH r eq_refl) as (body & post & -> & Ho & ->).
        exists (String c body), post. auto.
      * destruct (Ascii.eqb c "]") eqn:Ec; [ | discriminate ].
        apply Ascii.eqb_eq in Ec. subst c. injection H as <-.
        exists "", t. split; [ reflexivity | split; [ | reflexivity ] ].
        apply throughLastClose_none, E.
  - intros (body & post & -> & Ho & ->).
    induction body as [ | c body IH]; cbn.
    + apply throughLastClose_none in Ho. rewrite Ho. reflexivity.
    + rewrite IH. reflexivity.
Qed.

(** The bracketed part of a reply: [text.match(/\[[\s\S]*\]/)] succeeds
    exactly when the text reads [pre ++ "[" ++ body ++ "]" ++ post] with
    no "[" in [pre] and no "]" in [post], and the match is then
    ["[" ++ body ++ "]"]: it runs from the first "[" of the text to its
    last "]", whatever stands between them.  Matching the match again
    returns it unchanged. *)
Theorem jsonMatch_first_open_to_last_close (text m : string) :
  (jsonMatch text = Some m <->
   exists pre body post,
     text = pre ++ "[" ++ body ++ "]" ++ post
     /\ occurs "["%char pre = false /\ occurs "]"%char post = false
     /\ m = "[" ++ body ++ "]")
  /\ (jsonMatch text = Some m -> jsonMatch m = Some m).
Proof.
  assert (A : forall text m,
             jsonMatch text = Some m <->
             exists pre body post,
               text = pre ++ "[" ++ body ++ "]" ++ post
               /\ occurs "["%char pre = false /\ occurs "]"%char post = false
               /\ m = "[" ++ body ++ "]").
  { clear. intros text m. unfold jsonMatch. split.
    - destruct (fromFirstOpen text) as [suffix | ] eqn:E; [ | discriminate ].
      apply fromFirstOpen_spec in E. destruct E as (pre & rest & -> & Ho & ->).
      destruct (throughLastClose rest) as [p | ] eqn:E2; [ | discriminate ].
      apply throughLastClose_spec in E2. destruct E2 as (body & post & -> & Hc & ->).
      cbn. intros H. injection H as <-.
      exists pre, body, post. auto.
    - intros (pre & body & post & -> & Ho & Hc & ->).
      assert (E : fromFirstOpen (pre ++ "[" ++ body ++ "]" ++ post)
                  = Some (String "["%char (body ++ "]" ++ post))).
      { apply fromFirstOpen_spec. exists pre, (body ++ "]" ++ post). auto. }
      rewrite E.
      assert (E2 : throughLastClose (body ++ "]" ++ post) = Some (body ++ "]")).
      { apply throughLastClose_spec. exists body, post. auto. }
      rewrite E2. reflexivity. }
  split; [ apply A | ].
  intros H. apply A in H. destruct H as (pre & body & post & -> & Ho & Hc & ->).
  apply A. exists "", body, "". repeat split.
Qed.

(** A fenced reply loses its fence; two arrays in one reply come out as
    one span, prose between them included. *)
Example jsonMatch_examples :
  jsonMatch "Here you go: [1, 2] enjoy" = Some "[1, 2]"
  /\ jsonMatch "[1] and [2]" = Some "[1] and [2]"
  /\ jsonMatch "] no array [" = None.
Proof. repeat split. Qed.

End ReplyFacts.

(** * Generating styles, and the stored key *)

Module GenerateFacts.

Local Open Scope string_scope.
Local Open Scope list_scope.

Lemma getItem_setItem_same (st : Storage) (k v : string) :
  getItem (setItem st k v) k = Some v.
Proof.
  induction st as [ | [k' v'] st IH]; cbn.
  - rewrite String.eqb_refl. reflexivity.
  - destruct (String.eqb k' k) eqn:E; cbn.
    + rewrite String.eqb_refl. reflexivity.
    + rewrite E. exact IH.
Qed.

Lemma getItem_setItem_other (st : Storage) (k k' v : string) :
  String.eqb k k' = false -> getItem (setItem st k v) k' = getItem st k'.
Proof.
  intros Hk. induction st as [ | [k0 v0] st IH]; cbn.
  - rewrite Hk. reflexivity.
  - destruct (String.eqb k0 k) eqn:E; cbn.
    + apply String.eqb_eq in E. subst k0. rewrite Hk. reflexivity.
    + destruct (String.eqb k0 k'); [ reflexivity | exact IH ].
Qed.

(** Saving the key and opening a panel again (either of the two)
    restores the key that was in the field, the empty one included;
    every other item of the storage is left as it was, and a key typed
    but not saved is not restored. *)
Theorem api_key_round_trip (p : Panel) :
  aiApiKey (openPanel (localStorage (handleApiKeySave p))) = aiApiKey p
  /\ (forall item, String.eqb apiKeyItem item = false ->
                   getItem (localStorage (handleApiKeySave p)) item
                   = getItem (localStorage p) item)
  /\ (forall typed,
         aiApiKey (openPanel (localStorage (setAiApiKey typed p)))
         = aiApiKey (openPanel (localStorage p))).
Proof.
  split; [ | split ].
  - unfold openPanel. cbn [handleApiKeySave with_toast localStorage].
    rewrite getItem_setItem_same.
    destruct (String.eqb (aiApiKey p) "") eqn:E; cbn.
    + apply String.eqb_eq in E. congruence.
    + reflexivity.
  - intros item Hi. cbn. apply getItem_setItem_other, Hi.
  - reflexivity.
Qed.

Section WithParser.

Variable JSON_parse : string -> option JSValue.

(** However the awaited call ends, the loading flag goes down.  The
    generated styles are replaced only by a reply whose bracketed part
    parses; a rejected call, a reply without brackets and a reply that
    does not parse each leave the styles shown before in place and add
    exactly one error toast. *)
Lemma generateStyles_settles (o : Outcome) (p : Panel) :
  let p' := generateStyles_settle JSON_parse o p in
  panelLoading p' = false
  /\ inFlight p' = pred (inFlight p)
  /\ match usable JSON_parse o with
     | Some styles => generatedStyles p' = styles /\ toasts p' = toasts p
     | None => generatedStyles p' = generatedStyles p
               /\ toasts p' = toasts p ++ [error_GenerateFailed]
     end
  /\ styleUpdates p' = styleUpdates p /\ requests p' = requests p.
Proof.
  unfold generateStyles_settle, usable.
  destruct o as [text | ]; [ destruct (jsonMatch text) as [m | ];
                             [ destruct (JSON_parse m) | ] | ];
    cbn; repeat split.
Qed.

Lemma not_in_snoc (t : Toast) (ts : list Toast) :
  t <> error_NoApiKey -> ~ In error_NoApiKey ts -> ~ In error_NoApiKey (ts ++ [t]).
Proof.
  intros Hd Ht H. apply in_app_or in H.
  destruct H as [H | [H | []]]; [ exact (Ht H) | exact (Hd H) ].
Qed.

Lemma panelDispatch_sound (e : PanelEvent) (p : Panel) :
  sound p -> sound (panelDispatch JSON_parse e p).
Proof.
  unfold sound. intros (Hf & Hr & Ht).
  assert (Keep : ((inFlight p = 0%nat /\ panelLoading p = false)
                  \/ (inFlight p = 1%nat /\ panelLoading p = true))
                 /\ Forall (fun r => fst r <> "" /\ snd r <> "") (requests p)
                 /\ ~ In error_NoApiKey (toasts p)) by auto.
  destruct e; cbn.
  - exact Keep.
  - exact Keep.
  - split; [ exact Hf | split; [ exact Hr | ] ].
    apply not_in_snoc; [ discriminate | exact Ht ].
  - destruct (panelLoading p) eqn:L; cbn; [ rewrite L; exact Keep | ].
    destruct (String.eqb (aiApiKey p) "") eqn:K; cbn; [ rewrite L; exact Keep | ].
    unfold generateStyles_start. rewrite K.
    destruct (String.eqb (prompt p) "") eqn:P.
    + cbn. rewrite L. split; [ exact Hf | split; [ exact Hr | ] ].
      apply not_in_snoc; [ discriminate | exact Ht ].
    + destruct Hf as [[F _] | [_ F]]; [ | congruence ].
      cbn. rewrite F. split; [ right; auto | ]. split; [ | exact Ht ].
      apply Forall_app. split; [ exact Hr | ].
      constructor; [ | constructor ]. cbn.
      apply String.eqb_neq in K. apply String.eqb_neq in P. auto.
  - destruct (inFlight p) as [ | n] eqn:F; [ rewrite F; exact Keep | ].
    destruct Hf as [[F' _] | [F' _]]; [ congruence | ].
    assert (n = 0%nat) by congruence. subst n.
    unfold generateStyles_settle.
    destruct o as [text | ]; [ destruct (jsonMatch text) as [m | ];
                               [ destruct (JSON_parse m) | ] | ];
      cbn; rewrite F; cbn; (split; [ left; auto | split; [ exact Hr | ] ]);
      try exact Ht; (apply not_in_snoc; [ discriminate | exact Ht ]).
  - split; [ exact Hf | split; [ exact Hr | ] ].
    apply not_in_snoc; [ discriminate | exact Ht ].
  - split; [ exact Hf | split; [ exact Hr | ] ].
    apply not_in_snoc; [ discriminate | exact Ht ].
Qed.

(** Through the panel's controls, after any history of events: at
    most one generation is awaiting its reply, the loading flag is up
    exactly while one is, every request went out with a non-empty key
    and a non-empty prompt, and the "Please enter your Google AI API
    key" toast has never been shown (the Generate button is disabled
    without a key, so that branch of [generateStyles] is never
    reached). *)
Theorem one_generation_in_flight (st : Storage) (es : list PanelEvent) :
  let p := panelRun JSON_parse es (openPanel st) in
  (inFlight p <= 1)%nat
  /\ panelLoading p = Nat.eqb (inFlight p) 1
  /\ Forall (fun r => fst r <> "" /\ snd r <> "") (requests p)
  /\ ~ In error_NoApiKey (toasts p).
Proof.
  intros p.
  assert (A : forall es p0, sound p0 -> sound (panelRun JSON_parse es p0)).
  { clear. induction es as [ | e es IH]; intros p0 S0; [ exact S0 | ].
    apply (IH (panelDispatch JSON_parse e p0)), panelDispatch_sound, S0. }
  assert (S0 : sound (openPanel st)).
  { unfold openPanel. destruct (getItem st apiKeyItem) as [k | ];
      [ destruct (negb (String.eqb k "")) | ];
      (split; [ left; auto | split; [ constructor | intros [] ] ]). }
  destruct (A es _ S0) as ([[F L] | [F L]] & Hr & Ht); fold p in F, L, Hr, Ht;
    rewrite F, L; repeat split; auto.
Qed.

(** Only a settling call touches the generated styles. *)
Lemma panelDispatch_styles (e : PanelEvent) (p : Panel) :
  generatedStyles (panelDispatch JSON_parse e p) = generatedStyles p
  \/ exists text m,
      e = Settle (Resolved text) /\ jsonMatch text = Some m
      /\ JSON_parse m = Some (generatedStyles (panelDispatch JSON_parse e p)).
Proof.
  destruct e; cbn; auto.
  - destruct (panelLoading p || String.eqb (aiApiKey p) ""); auto.
    unfold generateStyles_start.
    destruct (String.eqb (aiApiKey p) ""); auto.
    destruct (String.eqb (prompt p) ""); auto.
  - destruct (inFlight p); auto.
    unfold generateStyles_settle.
    destruct o as [text | ]; auto.
    destruct (jsonMatch text) as [m | ] eqn:M; auto.
    destruct (JSON_parse m) as [styles | ] eqn:J; auto.
    right. exists text, m. auto.
Qed.

(** The styles a panel shows are never made up: after any history they
    are still the ones it started with, or they are what [JSON.parse]
    returned for the bracketed part of a reply that did arrive; a
    rejected call, a reply without brackets and a reply that does not
    parse change nothing. *)
Theorem generated_styles_come_from_a_reply (es : list PanelEvent) (p : Panel) :
  generatedStyles (panelRun JSON_parse es p) = generatedStyles p
  \/ exists text m,
      In (Settle (Resolved text)) es /\ jsonMatch text = Some m
      /\ JSON_parse m = Some (generatedStyles (panelRun JSON_parse es p)).
Proof.
  revert p. induction es as [ | e es IH]; intros p; [ left; reflexivity | ].
  change (panelRun JSON_parse (e :: es) p)
    with (panelRun JSON_parse es (panelDispatch JSON_parse e p)).
  destruct (IH (panelDispatch JSON_parse e p)) as [H | (text & m & H1 & H2 & H3)].
  - rewrite H. destruct (panelDispatch_styles e p) as [H' | (text & m & -> & H2 & H3)].
    + left. exact H'.
    + right. exists text, m. cbn. auto.
  - right. exists text, m. cbn. auto.
Qed.

End WithParser.

End GenerateFacts.
